(** * Session gateway and resilient dispatch layer

    A shallow embedding of the HTTP dispatcher ([request] and its error
    taxonomy), the ambient auth overlay ([auth-context.ts]) and the HTTP
    gateway front door ([http-gateway.ts]), with the properties of the
    specification stated and settled against them.

    - JavaScript numbers that the code receives as counters, status codes
      and base delays are finite integers, in [Z].  A number the code
      computes from a header is a double: [Js.Number] has the integers a
      double can hold, the infinities and [NaN], and [Js.toDouble] rounds
      as the language does.  Optional fields ([undefined]) are [option].
    - A string is a sequence of code units below 256 (the Latin-1 range),
      one [ascii] each, as the values of HTTP headers are; what the code
      does on strings with other code units is outside this development.
    - [request] is run against a [World]: for each attempt, how its fetch
      settles and when the caller's signal fires.  Its result is the
      outcome of the promise together with the trace of the fetches,
      controller aborts and sleeps it performed.
    - Every awaited promise settles: a fetch by its response, its
      rejection or the abort of its controller, a body read by its value
      or its rejection, a sleep when its timer fires; timers are those
      of Node ([Js.setTimeout_delay]).
    - The gateway is run against the registry of sessions, which it
      returns updated, and a [Handler] standing for the transport. *)

From Stdlib Require Import ZArith String Ascii List Bool Lia Sorted.
From Stdlib Require Import DecimalString Decimal DecimalFacts DecimalNat.
From stdpp Require Import base gmap strings list.
From Equations Require Import Equations.
Import ListNotations.

Local Open Scope string_scope.
Local Open Scope Z_scope.

(** ** JavaScript helpers *)

Module Js.

(** Truthiness of a string value: every string but the empty one. *)
Definition truthy (s : string) : bool :=
  match s with EmptyString => false | String _ _ => true end.

(** Truthiness of a possibly-undefined string. *)
Definition truthy_opt (o : option string) : bool :=
  match o with Some s => truthy s | None => false end.

(** [a || b] on possibly-undefined strings. *)
Definition or_else (a b : option string) : option string :=
  if truthy_opt a then a else b.

(** [s.startsWith(p)] *)
Fixpoint startsWith (p s : string) : bool :=
  match p, s with
  | EmptyString, _ => true
  | String a p', String b s' => if Ascii.eqb a b then startsWith p' s' else false
  | String _ _, EmptyString => false
  end.

(** [s.includes(p)] *)
Fixpoint includes (p s : string) : bool :=
  startsWith p s ||
  match s with
  | EmptyString => false
  | String _ s' => includes p s'
  end.

(** [s.replace(/\/$/, '')]: drop one trailing slash. *)
Fixpoint dropTrailingSlash (s : string) : string :=
  match s with
  | EmptyString => EmptyString
  | String c EmptyString => if Ascii.eqb c "/"%char then EmptyString else s
  | String c s' => String c (dropTrailingSlash s')
  end.

(** The white space and line terminators that [parseInt] skips and
    [trim] strips, among the code units below 256: TAB, LF, VT, FF, CR,
    SPACE and NO-BREAK SPACE (U+00A0). *)
Definition isWhite (c : ascii) : bool :=
  let n := N_of_ascii c in
  ((9 <=? n) && (n <=? 13))%N || (n =? 32)%N || (n =? 160)%N.

Definition digitValue (c : ascii) : option Z :=
  let n := N_of_ascii c in
  if ((48 <=? n) && (n <=? 57))%N then Some (Z.of_N n - 48) else None.

Fixpoint skipWhite (s : string) : string :=
  match s with
  | String c s' => if isWhite c then skipWhite s' else s
  | EmptyString => s
  end.

(** Longest prefix of decimal digits, accumulated left to right;
    [seen] records whether at least one digit was read. *)
Fixpoint readDigits (acc : Z) (seen : bool) (s : string) : option Z :=
  match s with
  | String c s' =>
      match digitValue c with
      | Some d => readDigits (10 * acc + d) true s'
      | None => if seen then Some acc else None
      end
  | EmptyString => if seen then Some acc else None
  end.

Fixpoint trimEnd (s : string) : string :=
  match s with
  | EmptyString => EmptyString
  | String c s' =>
      match trimEnd s' with
      | EmptyString => if isWhite c then EmptyString else String c EmptyString
      | t => String c t
      end
  end.

(** [s.trim()] *)
Definition trim (s : string) : string := trimEnd (skipWhite s).

(** [s.split(sep)] for a one-character separator: never empty. *)
Fixpoint split (sep : ascii) (s : string) : list string :=
  match s with
  | EmptyString => [EmptyString]
  | String c s' =>
      if Ascii.eqb c sep then EmptyString :: split sep s'
      else match split sep s' with
           | p :: ps => String c p :: ps
           | [] => [String c EmptyString]
           end
  end.

(** [l.join(sep)] *)
Definition join (sep : string) (l : list string) : string := String.concat sep l.

(** The lower case of a code unit below 256: the letters A to Z, and
    U+00C0 to U+00DE but the multiplication sign U+00D7. *)
Definition lowerChar (c : ascii) : ascii :=
  let n := N_of_ascii c in
  if ((65 <=? n) && (n <=? 90))%N
     || ((192 <=? n) && (n <=? 222) && negb (n =? 215))%N
  then ascii_of_N (n + 32) else c.

(** [s.toLowerCase()] *)
Fixpoint toLowerCase (s : string) : string :=
  match s with
  | EmptyString => EmptyString
  | String c s' => String (lowerChar c) (toLowerCase s')
  end.

(** The numbers that arise from integers: the doubles that are integers
    ([-0] is read as [0]), the two infinities and [NaN]. *)
Inductive Number :=
| NaN
| PosInfinity
| NegInfinity
| Finite (z : Z).

Definition infinity (negative : bool) : Number :=
  if negative then NegInfinity else PosInfinity.

(** The double nearest to an integer, ties to the even significand.  An
    integer below 2^53 in absolute value is a double.  A larger one has
    the magnitude [q * 2^e + r] with [2^52 <= q < 2^53] and [r < 2^e]:
    [q] is its significand, rounded up when [r] is more than half of
    [2^e], or is half of it and [q] is odd; a result of 2^1024 or more is
    an infinity. *)
Definition toDouble (z : Z) : Number :=
  let m := Z.abs z in
  if m <? 2 ^ 53 then Finite z
  else
    let e := Z.log2 m - 52 in
    let q := m / 2 ^ e in
    let r := m mod 2 ^ e in
    let half := 2 ^ (e - 1) in
    let q' := if (half <? r) || ((r =? half) && Z.odd q) then q + 1 else q in
    if 2 ^ 1024 <=? q' * 2 ^ e then infinity (z <? 0)
    else Finite (Z.sgn z * (q' * 2 ^ e)).

(** [x * y] *)
Definition mul (x y : Number) : Number :=
  match x, y with
  | NaN, _ => NaN
  | _, NaN => NaN
  | Finite a, Finite b => toDouble (a * b)
  | Finite a, PosInfinity => if a =? 0 then NaN else infinity (a <? 0)
  | PosInfinity, Finite a => if a =? 0 then NaN else infinity (a <? 0)
  | Finite a, NegInfinity => if a =? 0 then NaN else infinity (0 <? a)
  | NegInfinity, Finite a => if a =? 0 then NaN else infinity (0 <? a)
  | PosInfinity, PosInfinity => PosInfinity
  | NegInfinity, NegInfinity => PosInfinity
  | PosInfinity, NegInfinity => NegInfinity
  | NegInfinity, PosInfinity => NegInfinity
  end.

(** [x < y]: false when either is [NaN]. *)
Definition lt (x y : Number) : bool :=
  match x, y with
  | NaN, _ => false
  | _, NaN => false
  | Finite a, Finite b => a <? b
  | NegInfinity, NegInfinity => false
  | NegInfinity, _ => true
  | PosInfinity, _ => false
  | Finite _, PosInfinity => true
  | Finite _, NegInfinity => false
  end.

(** [parseInt(s, 10)]: the number of the longest prefix of decimal digits
    after the white space and the sign, rounded to a double; [NaN] when
    there is no digit. *)
Definition parseInt10 (s : string) : Number :=
  let number (negative : bool) (digits : option Z) : Number :=
    match digits with
    | Some n => toDouble (if negative then - n else n)
    | None => NaN
    end in
  match skipWhite s with
  | String "-" s' => number true (readDigits 0 false s')
  | String "+" s' => number false (readDigits 0 false s')
  | s' => number false (readDigits 0 false s')
  end.

(** The longest delay of a timer. *)
Definition TIMEOUT_MAX : Z := 2 ^ 31 - 1.

(** The delay in milliseconds of the timer that [setTimeout(f, after)]
    arms: [after] itself when it is at least 1 and at most [TIMEOUT_MAX],
    and 1 for every other number, [NaN] and the infinities included. *)
Definition setTimeout_delay (after : Number) : Z :=
  match after with
  | Finite z => if (1 <=? z) && (z <=? TIMEOUT_MAX) then z else 1
  | _ => 1
  end.

End Js.

(** ** Error taxonomy and dispatcher *)

Module Http.

Inductive ErrorCode :=
| NETWORK_ERROR | BAD_REQUEST | UNAUTHORIZED | FORBIDDEN | NOT_FOUND
| CONFLICT | VALIDATION_ERROR | RATE_LIMITED | INTERNAL_ERROR
| BAD_GATEWAY | SERVICE_UNAVAILABLE | GATEWAY_TIMEOUT | UNKNOWN_ERROR.

Definition statusToCode (status : Z) : ErrorCode :=
  match status with
  | 0 => NETWORK_ERROR
  | 400 => BAD_REQUEST
  | 401 => UNAUTHORIZED
  | 403 => FORBIDDEN
  | 404 => NOT_FOUND
  | 409 => CONFLICT
  | 422 => VALIDATION_ERROR
  | 429 => RATE_LIMITED
  | 500 => INTERNAL_ERROR
  | 502 => BAD_GATEWAY
  | 503 => SERVICE_UNAVAILABLE
  | 504 => GATEWAY_TIMEOUT
  | _ => UNKNOWN_ERROR
  end.

(** What the dispatcher reads of a decoded JSON body. *)
Record JsonView := {
  jv_message : option string;   (* payload.message *)
  jv_error : option string;     (* payload.error *)
  jv_raw : string;
}.

Inductive Payload :=
| PNull                        (* decoding failed: [.catch(() => null)] *)
| PText (s : string)           (* [response.text()] *)
| PJson (j : JsonView).        (* [response.json()] *)

Record HttpError := {
  status : Z;
  message : string;
  body : option Payload;
  code : ErrorCode;
}.

(** [new HttpError(status, message, body)] *)
Definition newHttpError (st : Z) (msg : string) (b : option Payload) : HttpError :=
  {| status := st; message := msg; body := b; code := statusToCode st |}.

Inductive Method := GET | POST | PUT | DELETE.

(** A request body as the dispatcher observes it: its truthiness and its
    [JSON.stringify] rendering. *)
Record Body := { body_truthy : bool; body_json : string }.

Record RequestOptions := {
  method : option Method;
  opt_body : option Body;
  (** [None]: no signal supplied; [Some b]: a signal whose [aborted]
      flag is [b] when [request] is called. *)
  signal : option bool;
  retries : option Z;
  retryDelay : option Z;
}.

Record Config := {
  apiUrl : string;
  apiKey : option string;
  jwt : option string;
  userAgent : string;
}.

Definition RETRYABLE_STATUSES : list Z := [408; 429; 500; 502; 503; 504].
Definition MAX_RETRIES : Z := 3.
Definition BASE_DELAY : Z := 1000.
Definition ATTEMPT_TIMEOUT : Z := 180000.

(** [RETRYABLE_STATUSES.has(status)] *)
Definition retryable_status (st : Z) : bool :=
  existsb (Z.eqb st) RETRYABLE_STATUSES.

Record Response := {
  resp_status : Z;
  resp_statusText : string;
  resp_contentType : option string;   (* headers.get('content-type') *)
  resp_retryAfter : option string;    (* headers.get('retry-after') *)
  resp_json : option JsonView;        (* response.json(), None: rejects *)
  resp_text : option string;          (* response.text(), None: rejects *)
}.

(** [response.ok] *)
Definition resp_ok (r : Response) : bool :=
  (200 <=? resp_status r) && (resp_status r <=? 299).

Record FetchRequest := {
  fr_url : string;
  fr_method : Method;
  fr_headers : list (string * string);
  fr_body : option string;
}.

(** How one [fetch] settles when nobody aborts it. *)
Inductive Settle :=
| Resolves (r : Response)
| Rejects (name : string) (msg : option string)
| Hangs.                       (* still pending when the timer fires *)

(** What the outside world does during attempt number [i]. *)
Record AttemptEnv := {
  caller_aborts_in_flight : bool;  (* the caller's signal fires while the fetch is pending *)
  settle : Settle;
  caller_aborts_in_body : bool;    (* ... after the response arrived, while its body is read *)
  caller_aborts_in_backoff : bool; (* ... during the sleep that follows the attempt *)
}.

Definition World := Z -> AttemptEnv.

(** Who called [controller.abort()]: the listener on the caller's
    signal, or the timer set at the start of the attempt. *)
Inductive AbortCause :=
| ByCaller
| ByTimer (ms : Z).

Inductive Event :=
| EvFetch (attempt : Z) (req : FetchRequest)
| EvAbort (attempt : Z) (cause : AbortCause)  (* controller.abort() of that attempt *)
| EvSleep (ms : Js.Number).                   (* sleep(delay) *)

Inductive Outcome :=
| Returned (p : Payload)
| Thrown (e : HttpError).

Record Run := { outcome : Outcome; trace : list Event }.

Definition emit (ev : Event) (r : Run) : Run :=
  {| outcome := outcome r; trace := ev :: trace r |}.

Definition ended (o : Outcome) : Run := {| outcome := o; trace := [] |}.

(** The headers object built before the loop. *)
Definition build_headers (config : Config) : list (string * string) :=
  [("Content-Type", "application/json"); ("User-Agent", userAgent config)]
  ++ (if Js.truthy_opt (apiKey config)
      then [("X-API-Key", default "" (apiKey config))] else [])
  ++ (if Js.truthy_opt (jwt config)
      then [("Authorization", "Bearer " ++ default "" (jwt config))] else []).

Definition build_url (config : Config) (path : string) : string :=
  let apiPath := if Js.startsWith "/api/" path then path else "/api/v1" ++ path in
  Js.dropTrailingSlash (apiUrl config) ++ apiPath.

Definition build_fetch (config : Config) (path : string) (options : RequestOptions)
  : FetchRequest :=
  {| fr_url := build_url config path;
     fr_method :=
       match method options with
       | Some m => m
       | None =>
           match opt_body options with
           | Some b => if body_truthy b then POST else GET
           | None => GET
           end
       end;
     fr_headers := build_headers config;
     fr_body := option_map body_json (opt_body options) |}.

(** Decode the body of a response by its content type. *)
Definition read_payload (r : Response) : Payload :=
  let contentType := default "" (Js.or_else (resp_contentType r) (Some "")) in
  if Js.includes "application/json" contentType
  then match resp_json r with Some j => PJson j | None => PNull end
  else match resp_text r with Some s => PText s | None => PNull end.

(** [payload?.message || payload?.error || response.statusText] *)
Definition error_message (p : Payload) (r : Response) : string :=
  match p with
  | PJson j =>
      default (resp_statusText r)
        (Js.or_else (Js.or_else (jv_message j) (jv_error j)) (Some (resp_statusText r)))
  | _ => resp_statusText r
  end.

(** [baseDelay * Math.pow(2, attempt)]: a base delay times a power of
    two is exact, short of an overflow, which takes more than 900 retries
    and is left out. *)
Definition backoff (baseDelay attempt : Z) : Z := baseDelay * 2 ^ attempt.

(** The delay chosen after a failing response:
    [retryAfter ? parseInt(retryAfter, 10) * 1000 : baseDelay * Math.pow(2, attempt)] *)
Definition response_delay (r : Response) (baseDelay attempt : Z) : Js.Number :=
  if Js.truthy_opt (resp_retryAfter r)
  then Js.mul (Js.parseInt10 (default "" (resp_retryAfter r))) (Js.Finite 1000)
  else Js.Finite (backoff baseDelay attempt).

(** [sleep(ms)]: the time in milliseconds after which its promise
    resolves, that of the timer of [setTimeout(resolve, ms)]. *)
Definition sleep (ms : Js.Number) : Z := Js.setTimeout_delay ms.

(** The caller's signal after it may have fired: firing needs a signal. *)
Definition fire (sig : option bool) (fires : bool) : option bool :=
  match sig with
  | Some b => Some (b || fires)
  | None => None
  end.

(** [options.signal?.aborted] *)
Definition aborted (sig : option bool) : bool :=
  match sig with Some b => b | None => false end.

(** The abort event is dispatched to the listeners on the signal only
    when the signal goes from not aborted to aborted. *)
Definition listener_runs (sig : option bool) (fires : bool) : bool :=
  match sig with
  | Some b => negb b && fires
  | None => false
  end.

(** How the [fetch] of one attempt ends. *)
Inductive FetchEnd :=
| Fulfilled (r : Response)
| Rejected (name : string) (msg : option string).

(** The rejection of a fetch whose controller was aborted. *)
Definition abortError : FetchEnd :=
  Rejected "AbortError" (Some "This operation was aborted").

(** One [await fetch(url, fetchOptions)] under its controller: the
    caller's listener aborts it when the signal fires, the timer aborts
    it when it is still pending after [ATTEMPT_TIMEOUT] milliseconds.
    The second component tells who called [controller.abort()], if
    anyone. *)
Definition await_fetch (sig : option bool) (env : AttemptEnv)
  : FetchEnd * option AbortCause :=
  if listener_runs sig (caller_aborts_in_flight env) then (abortError, Some ByCaller)
  else match settle env with
       | Resolves r => (Fulfilled r, None)
       | Rejects name msg => (Rejected name msg, None)
       | Hangs => (abortError, Some (ByTimer ATTEMPT_TIMEOUT))
       end.

(** How one iteration of the retry loop ends. *)
Inductive Step :=
| Stop (o : Outcome)                           (* return or throw *)
| Continue (e : HttpError) (delay : Js.Number). (* lastError = e; await sleep(delay); continue *)

(** The [catch] block of the loop body; [sig] is the caller's signal as
    it is when the rejection is handled. *)
Definition on_rejected (maxRetries baseDelay attempt : Z) (sig : option bool)
    (name : string) (msg : option string) : Step :=
  if String.eqb name "AbortError" then
    if aborted sig
    then Stop (Thrown (newHttpError 0 "Request cancelled by user" None))
    else Stop (Thrown (newHttpError 0 "Request timeout after 180 seconds" None))
  else
    let lastError :=
      newHttpError 0 (default "Network error" (Js.or_else msg (Some "Network error"))) None in
    if attempt <? maxRetries
    then Continue lastError (Js.Finite (backoff baseDelay attempt))
    else Stop (Thrown lastError).

(** Reading the body of a response that arrived.  The timer is already
    cleared; when the caller's signal fires the listener aborts the
    controller, the read rejects and [.catch(() => null)] leaves [null]. *)
Definition await_body (sig : option bool) (env : AttemptEnv) (r : Response)
  : Payload * option AbortCause :=
  if listener_runs sig (caller_aborts_in_body env) then (PNull, Some ByCaller)
  else (read_payload r, None).

(** The loop body after a response arrived and its body was read. *)
Definition on_response (maxRetries baseDelay attempt : Z) (r : Response)
    (payload : Payload) : Step :=
  if negb (resp_ok r) then
    let lastError :=
      newHttpError (resp_status r) (error_message payload r) (Some payload) in
    if retryable_status (resp_status r) && (attempt <? maxRetries)
    then Continue lastError (response_delay r baseDelay attempt)
    else Stop (Thrown lastError)
  else Stop (Returned payload).

(** What one iteration does: the step it takes, who aborted its
    controller, and the caller's signal when it ends. *)
Record Iteration := {
  it_step : Step;
  it_aborted : option AbortCause;
  it_signal : option bool;
}.

Definition attempt_body (maxRetries baseDelay attempt : Z) (sig : option bool)
    (env : AttemptEnv) : Iteration :=
  let sig1 := fire sig (caller_aborts_in_flight env) in
  match await_fetch sig env with
  | (Rejected name msg, ab) =>
      {| it_step := on_rejected maxRetries baseDelay attempt sig1 name msg;
         it_aborted := ab;
         it_signal := sig1 |}
  | (Fulfilled r, ab) =>
      {| it_step := on_response maxRetries baseDelay attempt r
                      (fst (await_body sig1 env r));
         it_aborted := match ab with
                       | Some c => Some c
                       | None => snd (await_body sig1 env r)
                       end;
         it_signal := fire sig1 (caller_aborts_in_body env) |}
  end.

Definition emits (evs : list Event) (r : Run) : Run :=
  {| outcome := outcome r; trace := evs ++ trace r |}.

(** What happens when the caller's signal fires during attempt [attempt]
    or the sleep that follows it.  Every attempt made so far, from 0 on,
    added a listener to the signal and none was removed: they run in the
    order they were added, each calling [abort()] on the controller of
    its attempt. *)
Definition listeners_run (attempt : Z) : list Event :=
  (fun i => EvAbort i ByCaller) <$> seqZ 0 (attempt + 1).

(** The calls of [controller.abort()] during an attempt whose own
    controller was aborted by [ab]. *)
Definition abort_events (ab : option AbortCause) (attempt : Z) : list Event :=
  match ab with
  | Some ByCaller => listeners_run attempt
  | Some (ByTimer ms) => [EvAbort attempt (ByTimer ms)]
  | None => []
  end.

Definition emit_abort (ab : option AbortCause) (attempt : Z) (r : Run) : Run :=
  emits (abort_events ab attempt) r.

(** The calls of [controller.abort()] during the sleep after attempt
    [attempt], when the caller's signal, [sig] at the start of the sleep,
    fires meanwhile. *)
Definition backoff_aborts (sig : option bool) (fires : bool) (attempt : Z) : list Event :=
  if listener_runs sig fires then listeners_run attempt else [].

(** [for (let attempt = 0; attempt <= maxRetries; attempt++) { ... }]
    followed by the final [throw]. *)
Equations? request_loop (maxRetries baseDelay : Z) (req : FetchRequest)
    (world : World) (attempt : Z) (sig : option bool)
    (lastError : option HttpError) : Run
    by wf (Z.to_nat (maxRetries + 1 - attempt)) lt :=
  request_loop maxRetries baseDelay req world attempt sig lastError
    with Z_le_gt_dec attempt maxRetries => {
    | right _ =>
        ended (Thrown (default (newHttpError 0 "Request failed after retries" None)
                        lastError));
    | left _ =>
        emit (EvFetch attempt req)
          (emit_abort
             (it_aborted (attempt_body maxRetries baseDelay attempt sig (world attempt)))
             attempt
             match it_step (attempt_body maxRetries baseDelay attempt sig (world attempt)) with
             | Stop o => ended o
             | Continue e delay =>
                 emit (EvSleep delay)
                   (emits
                      (backoff_aborts
                         (it_signal (attempt_body maxRetries baseDelay attempt sig
                                       (world attempt)))
                         (caller_aborts_in_backoff (world attempt)) attempt)
                      (request_loop maxRetries baseDelay req world (attempt + 1)
                         (fire (it_signal (attempt_body maxRetries baseDelay attempt sig
                                             (world attempt)))
                               (caller_aborts_in_backoff (world attempt)))
                         (Some e)))
             end) }.
Proof. lia. Qed.

(** [request(config, path, options)] against a given world. *)
Definition request (config : Config) (path : string) (options : RequestOptions)
    (world : World) : Run :=
  let maxRetries := default MAX_RETRIES (retries options) in
  let baseDelay := default BASE_DELAY (retryDelay options) in
  request_loop maxRetries baseDelay (build_fetch config path options)
    world 0 (signal options) None.

End Http.

(** ** Ambient auth overlay (auth-context.ts) *)

Module AuthContext.

Record AuthOverride := {
  apiKey : option string;
  jwt : option string;
  workspaceId : option string;
  projectId : option string;
}.

(** The store of the [AsyncLocalStorage<AuthOverride | null>] as one
    async context sees it; [None] outside every [run], where
    [getStore()] is [undefined]. *)
Definition Store := option (option AuthOverride).

(** [authContext.run(override, fn)]: [fn] runs with [override] as its store. *)
Definition runWithAuthOverride {T} (override : option AuthOverride)
    (fn : Store -> T) : T :=
  fn (Some override).

(** [authContext.getStore() ?? null] *)
Definition getAuthOverride (store : Store) : option AuthOverride :=
  match store with
  | Some o => o
  | None => None
  end.

End AuthContext.

(** ** Gateway front door (http-gateway.ts) *)

Module Gateway.
Import AuthContext.

(** A header of [IncomingMessage.headers]: [string | string[]]. *)
Inductive HeaderValue :=
| HStr (s : string)
| HArr (l : list string).

Record IncomingMessage := {
  url : option string;
  req_method : option string;
  headers : gmap string HeaderValue;
}.

Inductive TokenType := api_key | jwt_token.

Record SessionEntry := {
  authOverride : option AuthOverride;
  createdAt : Z;
  lastSeenAt : Z;
  transport_sessionId : option string;   (* entry.transport.sessionId *)
}.

Definition normalizeHeaderValue (value : option HeaderValue) : option string :=
  match value with
  | None => None
  | Some (HStr s) => if Js.truthy s then Some s else None
  | Some (HArr l) => head l
  end.

Definition looksLikeJwt (token : string) : bool :=
  let parts := Js.split "."%char token in
  (Nat.eqb (length parts) 3) && forallb (fun part => Nat.ltb 0 (String.length part)) parts.

Record Extracted := {
  override : option AuthOverride;
  tokenType : option TokenType;
}.

(** The bearer token of an [authorization] header, if it has one. *)
Definition bearerToken (authHeader : option string) : option string :=
  if Js.truthy_opt authHeader then
    match Js.split " "%char (default "" authHeader) with
    | type :: rest =>
        if Js.truthy type && String.eqb (Js.toLowerCase type) "bearer"
           && Nat.ltb 0 (length rest)
        then Some (Js.trim (Js.join " " rest))
        else None
    | [] => None
    end
  else None.

Definition extractAuthOverride (req : IncomingMessage) (fallback : option AuthOverride)
  : Extracted :=
  let apiKey := Js.or_else (normalizeHeaderValue (headers req !! "x-api-key"))
                  (normalizeHeaderValue (headers req !! "x-contextstream-api-key")) in
  let jwtHeader := normalizeHeaderValue (headers req !! "x-contextstream-jwt") in
  let authHeader := normalizeHeaderValue (headers req !! "authorization") in
  let token := bearerToken authHeader in
  let workspaceId := Js.or_else (normalizeHeaderValue (headers req !! "x-contextstream-workspace-id"))
                       (normalizeHeaderValue (headers req !! "x-workspace-id")) in
  let projectId := Js.or_else (normalizeHeaderValue (headers req !! "x-contextstream-project-id"))
                     (normalizeHeaderValue (headers req !! "x-project-id")) in
  if Js.truthy_opt jwtHeader then
    {| override := Some {| apiKey := None; jwt := jwtHeader;
                           workspaceId := workspaceId; projectId := projectId |};
       tokenType := Some jwt_token |}
  else if Js.truthy_opt apiKey then
    {| override := Some {| apiKey := apiKey; jwt := None;
                           workspaceId := workspaceId; projectId := projectId |};
       tokenType := Some api_key |}
  else if Js.truthy_opt token then
    if looksLikeJwt (default "" token) then
      {| override := Some {| apiKey := None; jwt := token;
                             workspaceId := workspaceId; projectId := projectId |};
         tokenType := Some jwt_token |}
    else
      {| override := Some {| apiKey := token; jwt := None;
                             workspaceId := workspaceId; projectId := projectId |};
         tokenType := Some api_key |}
  else if Js.truthy_opt workspaceId || Js.truthy_opt projectId then
    {| override := Some {| apiKey := None; jwt := None;
                           workspaceId := workspaceId; projectId := projectId |};
       tokenType := None |}
  else {| override := fallback; tokenType := None |}.

(** [req.auth] as [attachAuthInfo] sets it. *)
Record AuthInfo := {
  token : string;
  clientId : string;
  scopes : list string;
  extra_tokenType : TokenType;
}.

Definition attachAuthInfo (tok : string) (tt : TokenType) : AuthInfo :=
  {| token := tok; clientId := "contextstream-mcp-http"; scopes := [];
     extra_tokenType := tt |}.

(** The session [createSession] returns at time [now]; it is taken to
    succeed, as the configuration was already loaded at start-up. *)
Definition createSession (now : Z) : SessionEntry :=
  {| authOverride := None; createdAt := now; lastSeenAt := now;
     transport_sessionId := None |}.

(** The rejection of [entry.transport.handleRequest(req, res)], as the
    listener observes it. *)
Record Rejection := {
  rej_message : option string;   (* error?.message *)
  rej_headersSent : bool;        (* the transport had written the head of the response *)
}.

(** What [entry.transport.handleRequest(req, res)] does. *)
Record Handled := {
  h_sessionId : option string;   (* entry.transport.sessionId once the call is over *)
  h_closed : list string;        (* ids given to [onsessionclosed] during the call *)
  h_throws : option Rejection;   (* the call rejects *)
}.

(** The transport: it runs in the store it is called in, on the request
    with its [auth] attached and on the session entry. *)
Definition Handler :=
  Store -> IncomingMessage -> option AuthInfo -> SessionEntry -> Handled.

Inductive Reply :=
| Json (status : Z) (payload : list (string * string))  (* writeJson(res, status, payload) *)
| Delegated                     (* the transport wrote the response *)
| Raised (err : Rejection)      (* the promise rejects with the error of the transport *)
| InvalidUrl                    (* [new URL] throws and the promise of the listener rejects *)
| HeadersSent                   (* [res.writeHead] throws ERR_HTTP_HEADERS_SENT and the
                                   promise of the listener rejects *)
.

(** [writeJson(res, status, payload)]: [res.writeHead] throws when the
    head of the response was already written. *)
Definition writeJson (headersSent : bool) (status : Z) (payload : list (string * string))
  : Reply :=
  if headersSent then HeadersSent else Json status payload.

Record Outcome := {
  reply : Reply;
  sessions : gmap string SessionEntry;   (* the registry afterwards *)
  scope : option (option AuthOverride);  (* the overlay the handler ran in, if it ran *)
  created : bool;                        (* [createSession] was called *)
}.

(** The two rejections of the front door. *)
Definition unauthorized : Reply :=
  Json 401 [("error", "Missing authorization token. Use Authorization: Bearer <API_KEY> or X-API-Key.")].

Definition unknown_session : Reply :=
  Json 404 [("error", "Unknown MCP session. Re-initialize your MCP connection.")].

Section Environment.

Variable REQUIRE_AUTH : bool.
Variable MCP_PATH : string.
Variable VERSION : string.
(** [new URL(url, base).pathname]; [None] when the constructor throws. *)
Variable url_pathname : string -> string -> option string.

Definition handleMcpRequest (now_created now : Z) (handler : Handler)
    (req : IncomingMessage) (registry : gmap string SessionEntry) : Outcome :=
  let sessionId := normalizeHeaderValue (headers req !! "mcp-session-id") in
  let existingSession :=
    if Js.truthy_opt sessionId then registry !! default "" sessionId else None in
  let ex := extractAuthOverride req
              (match existingSession with Some e => authOverride e | None => None end) in
  let token :=
    match override ex with
    | Some o => Js.or_else (AuthContext.jwt o) (AuthContext.apiKey o)
    | None => None
    end in
  if REQUIRE_AUTH && negb (Js.truthy_opt token) then
    {| reply := unauthorized;
       sessions := registry; scope := None; created := false |}
  else if Js.truthy_opt sessionId && negb (bool_decide (is_Some existingSession)) then
    {| reply := unknown_session;
       sessions := registry; scope := None; created := false |}
  else
    let entry0 := default (createSession now_created) existingSession in
    let entry :=
      {| authOverride := match override ex with
                         | Some o => Some o
                         | None => authOverride entry0
                         end;
         createdAt := createdAt entry0;
         lastSeenAt := now;
         transport_sessionId := transport_sessionId entry0 |} in
    (* an existing entry is the object held by the registry: it is updated in place *)
    let registry1 :=
      match existingSession with
      | Some _ => <[default "" sessionId := entry]> registry
      | None => registry
      end in
    let auth :=
      if Js.truthy_opt token
      then option_map (attachAuthInfo (default "" token)) (tokenType ex)
      else None in
    let h := runWithAuthOverride (override ex) (fun store => handler store req auth entry) in
    let registry2 := foldr delete registry1 (h_closed h) in
    match h_throws h with
    | Some msg =>
        {| reply := Raised msg; sessions := registry2;
           scope := Some (override ex);
           created := negb (bool_decide (is_Some existingSession)) |}
    | None =>
        let newSessionId := h_sessionId h in
        {| reply := Delegated;
           sessions :=
             if negb (bool_decide (is_Some existingSession)) && Js.truthy_opt newSessionId
             then <[default "" newSessionId :=
                      {| authOverride := authOverride entry; createdAt := createdAt entry;
                         lastSeenAt := lastSeenAt entry;
                         transport_sessionId := newSessionId |}]> registry2
             else registry2;
           scope := Some (override ex);
           created := negb (bool_decide (is_Some existingSession)) |}
    end.

(** [`http://${req.headers.host || 'localhost'}`] *)
Definition base_of (req : IncomingMessage) : string :=
  "http://" ++
  match headers req !! "host" with
  | Some (HStr s) => if Js.truthy s then s else "localhost"
  | Some (HArr l) => Js.join "," l
  | None => "localhost"
  end.

(** The request listener given to [createServer] in [runHttpGateway]. *)
Definition listener (now_created now : Z) (handler : Handler)
    (req : IncomingMessage) (registry : gmap string SessionEntry) : Outcome :=
  let answer r := {| reply := r; sessions := registry; scope := None; created := false |} in
  if negb (Js.truthy_opt (url req)) then answer (Json 404 [("error", "Not found")])
  else
    match url_pathname (default "" (url req)) (base_of req) with
    | None => answer InvalidUrl
    | Some pathname =>
        if String.eqb pathname "/health"
        then answer (Json 200 [("status", "ok"); ("version", VERSION)])
        else if negb (String.eqb pathname MCP_PATH)
        then answer (Json 404 [("error", "Not found")])
        else if negb (existsb (String.eqb (default "" (req_method req)))
                        ["GET"; "POST"; "DELETE"])
        then answer (Json 405 [("error", "Method not allowed")])
        else
          let out := handleMcpRequest now_created now handler req registry in
          match reply out with
          | Raised err =>
              {| reply := writeJson (rej_headersSent err) 500
                            [("error", default "Internal server error"
                                         (Js.or_else (rej_message err)
                                            (Some "Internal server error")))];
                 sessions := sessions out; scope := scope out; created := created out |}
          | _ => out
          end
    end.

End Environment.

End Gateway.

(** ** Observations on runs, used to state the properties *)

Module Observations.
Import Http.

(** The attempt indices of the fetches of a trace, in order. *)
Definition fetch_attempts (t : list Event) : list Z :=
  omap (fun ev => match ev with EvFetch a _ => Some a | _ => None end) t.

(** The delays of the sleeps of a trace, in order. *)
Definition sleeps (t : list Event) : list Js.Number :=
  omap (fun ev => match ev with EvSleep d => Some d | _ => None end) t.

(** How long each sleep of a trace lasts, in milliseconds. *)
Definition waits (t : list Event) : list Z := sleep <$> sleeps t.

(** The error an iteration produced, if it failed. *)
Definition step_error (s : Step) : option HttpError :=
  match s with
  | Stop (Thrown e) => Some e
  | Stop (Returned _) => None
  | Continue e _ => Some e
  end.

(** Errors are classified by their status, whoever built them. *)
Definition classified (e : HttpError) : Prop := code e = statusToCode (status e).

(** The kinds the retry policy of the specification calls transient. *)
Definition transient_kind (c : ErrorCode) : bool :=
  match c with
  | RATE_LIMITED | INTERNAL_ERROR | BAD_GATEWAY | SERVICE_UNAVAILABLE
  | GATEWAY_TIMEOUT => true
  | _ => false
  end.

(** The kinds the specification calls non-retryable. *)
Definition terminal_kind (c : ErrorCode) : bool :=
  match c with
  | BAD_REQUEST | UNAUTHORIZED | FORBIDDEN | NOT_FOUND | CONFLICT
  | VALIDATION_ERROR | UNKNOWN_ERROR => true
  | _ => false
  end.


(** The headers of a request that carry an identity. *)
Definition identity_headers (hs : list (string * string)) : list (string * string) :=
  List.filter (fun h => String.eqb (fst h) "X-API-Key" || String.eqb (fst h) "Authorization") hs.

(** The identity headers that a pair of credentials stands for. *)
Definition credential_headers (apiKey jwt : option string) : list (string * string) :=
  (if Js.truthy_opt apiKey then [("X-API-Key", default "" apiKey)] else [])
  ++ (if Js.truthy_opt jwt then [("Authorization", "Bearer " ++ default "" jwt)] else []).

(** The identity headers of every fetch of a trace. *)
Definition fetch_identities (t : list Event) : list (list (string * string)) :=
  omap (fun ev => match ev with
                  | EvFetch _ req => Some (identity_headers (fr_headers req))
                  | _ => None
                  end) t.

(** A dispatch made while an overlay is installed, as the gateway
    installs it around the transport's handling of a request. *)
Definition request_within (overlay : option AuthContext.AuthOverride)
    (config : Config) (path : string) (options : RequestOptions) (world : World) : Run :=
  AuthContext.runWithAuthOverride overlay
    (fun _store => request config path options world).

(** The credential a request presents in its own headers, if any. *)
Definition presented_credential (req : Gateway.IncomingMessage) : option string :=
  match Gateway.override (Gateway.extractAuthOverride req None) with
  | Some o => Js.or_else (AuthContext.jwt o) (AuthContext.apiKey o)
  | None => None
  end.

(** The workspace and project scope headers of a request. *)
Definition scope_workspace (req : Gateway.IncomingMessage) : option string :=
  Js.or_else
    (Gateway.normalizeHeaderValue (Gateway.headers req !! "x-contextstream-workspace-id"))
    (Gateway.normalizeHeaderValue (Gateway.headers req !! "x-workspace-id")).

Definition scope_project (req : Gateway.IncomingMessage) : option string :=
  Js.or_else
    (Gateway.normalizeHeaderValue (Gateway.headers req !! "x-contextstream-project-id"))
    (Gateway.normalizeHeaderValue (Gateway.headers req !! "x-project-id")).

(** The overlay that carries the scope headers of a request and nothing else. *)
Definition scope_only (req : Gateway.IncomingMessage) : AuthContext.AuthOverride :=
  {| AuthContext.apiKey := None; AuthContext.jwt := None;
     AuthContext.workspaceId := scope_workspace req;
     AuthContext.projectId := scope_project req |}.

(** A transport that handles the request and leaves the registry alone. *)
Definition plain_handler : Gateway.Handler :=
  fun _ _ _ entry =>
    {| Gateway.h_sessionId := Gateway.transport_sessionId entry;
       Gateway.h_closed := []; Gateway.h_throws := None |}.

End Observations.

(** ** Concrete configurations, worlds and requests *)

Module Scenarios.
Import Http Observations.

Definition example_config : Config :=
  {| apiUrl := "https://api.example.com"; apiKey := Some "k"; jwt := None;
     userAgent := "ua" |}.

Definition overlay_with_key : AuthContext.AuthOverride :=
  {| AuthContext.apiKey := Some "overlay-key"; AuthContext.jwt := None;
     AuthContext.workspaceId := None; AuthContext.projectId := None |}.

Definition plain_options : RequestOptions :=
  {| method := None; opt_body := None; signal := None; retries := None;
     retryDelay := None |}.

Definition text_response (st : Z) (retryAfter : option string) : Response :=
  {| resp_status := st; resp_statusText := "status"; resp_contentType := None;
     resp_retryAfter := retryAfter; resp_json := None; resp_text := Some "body" |}.

(** An attempt during which the caller does nothing. *)
Definition quiet (s : Settle) : AttemptEnv :=
  {| caller_aborts_in_flight := false; settle := s; caller_aborts_in_body := false;
     caller_aborts_in_backoff := false |}.

(** A world in which every attempt is answered with the same response. *)
Definition always (r : Response) : World := fun _ => quiet (Resolves r).

(** A world whose first attempt hangs and whose later ones succeed. *)
Definition hangs_first : World :=
  fun i => quiet (if i =? 0 then Hangs else Resolves (text_response 200 None)).

(** A world whose first attempt is cancelled by the caller while its
    fetch is pending. *)
Definition cancelled_first : World :=
  fun i => {| caller_aborts_in_flight := i =? 0;
              settle := Resolves (text_response 200 None);
              caller_aborts_in_body := false;
              caller_aborts_in_backoff := false |}.

(** A world whose first attempt is answered 503 and cancelled by the
    caller while the body of that response is read; the backend answers
    the later attempts. *)
Definition cancelled_in_body : World :=
  fun i => {| caller_aborts_in_flight := false;
              settle := Resolves (text_response (if i =? 0 then 503 else 200) None);
              caller_aborts_in_body := i =? 0;
              caller_aborts_in_backoff := false |}.

(** A world that answers 429 twice and then 200. *)
Definition rate_limited_twice : World :=
  fun i => quiet (Resolves (text_response (if i <? 2 then 429 else 200) None)).

(** Options with a cancellation signal that is not aborted yet. *)
Definition options_with_signal : RequestOptions :=
  {| method := None; opt_body := None; signal := Some false; retries := None;
     retryDelay := None |}.

Import AuthContext Gateway.

(** The path of an origin-form request target without query. *)
Definition target_path : string -> string -> option string := fun u _ => Some u.

Definition health_request : IncomingMessage :=
  {| url := Some "/health"; req_method := Some "GET"; headers := ∅ |}.

Definition stale_request : IncomingMessage :=
  {| url := Some "/mcp"; req_method := Some "POST";
     headers := {[ "mcp-session-id" := HStr "s1" ]} |}.

Definition prior_overlay : AuthOverride :=
  {| apiKey := Some "key-1"; jwt := None; workspaceId := Some "w1"; projectId := None |}.

Definition known_session : SessionEntry :=
  {| authOverride := Some prior_overlay; createdAt := 0; lastSeenAt := 0;
     transport_sessionId := Some "s1" |}.

Definition scope_request : IncomingMessage :=
  {| url := Some "/mcp"; req_method := Some "POST";
     headers := {[ "mcp-session-id" := HStr "s1"; "x-workspace-id" := HStr "w2" ]} |}.

End Scenarios.

(** ** Version (version.ts) *)

Module Version.

(** What [require('../package.json')] gives: it throws, or it yields a
    package whose [version] is a string or is not one. *)
Inductive PackageJson :=
| RequireThrows
| Loaded (version : option string).

Definition getVersion (pkg : PackageJson) : string :=
  match pkg with
  | Loaded (Some version) =>
      if Js.truthy (Js.trim version) then Js.trim version else "unknown"
  | _ => "unknown"
  end.

Section Numbers.

(** JavaScript numbers as [compareVersions] uses them: [Number(s)], the
    constant [0] and the comparison [<]; [a > b] is [b < a]. *)
Variable num : Type.
Variable Number : string -> num.
Variable zero : num.
Variable lt : num -> num -> bool.

(** The [for] loop of [compareVersions], from index [i], with [steps]
    iterations left; [nth i parts zero] is [parts[i] ?? 0]. *)
Fixpoint compareLoop (parts1 parts2 : list num) (steps i : nat) : Z :=
  match steps with
  | O => 0
  | S steps' =>
      let p1 := nth i parts1 zero in
      let p2 := nth i parts2 zero in
      if lt p1 p2 then -1
      else if lt p2 p1 then 1
      else compareLoop parts1 parts2 steps' (S i)
  end.

Definition compareVersions (v1 v2 : string) : Z :=
  let parts1 := map Number (Js.split "."%char v1) in
  let parts2 := map Number (Js.split "."%char v2) in
  compareLoop parts1 parts2 (Nat.max (length parts1) (length parts2)) 0.

End Numbers.

End Version.

(** ** Configuration loading *)

Module ConfigLoader.

Record Config := {
  apiUrl : string;
  apiKey : option string;
  jwt : option string;
  defaultWorkspaceId : option string;
  defaultProjectId : option string;
  userAgent : string;
  allowHeaderAuth : bool;
}.

(** The part of a loaded configuration that [request] destructures. *)
Definition to_http (c : Config) : Http.Config :=
  {| Http.apiUrl := apiUrl c; Http.apiKey := apiKey c; Http.jwt := jwt c;
     Http.userAgent := userAgent c |}.

Section Schema.

(** The string formats checked by the schema: [.url()] and [.uuid()]. *)
Variable is_url : string -> bool.
Variable is_uuid : string -> bool.

(** [z.string().url()]: the value is required. *)
Definition url_ok (v : option string) : bool :=
  match v with Some s => is_url s | None => false end.

(** [z.string().min(1).optional()] *)
Definition nonempty_ok (v : option string) : bool :=
  match v with Some s => Js.truthy s | None => true end.

(** [z.string().uuid().optional()] *)
Definition uuid_ok (v : option string) : bool :=
  match v with Some s => is_uuid s | None => true end.

(** The paths of the issues of [configSchema.safeParse], in the order of
    the schema. *)
Definition issues (env : gmap string string) : list string :=
  (if url_ok (env !! "CONTEXTSTREAM_API_URL") then [] else ["apiUrl"])
  ++ (if nonempty_ok (env !! "CONTEXTSTREAM_API_KEY") then [] else ["apiKey"])
  ++ (if nonempty_ok (env !! "CONTEXTSTREAM_JWT") then [] else ["jwt"])
  ++ (if uuid_ok (env !! "CONTEXTSTREAM_WORKSPACE_ID") then [] else ["defaultWorkspaceId"])
  ++ (if uuid_ok (env !! "CONTEXTSTREAM_PROJECT_ID") then [] else ["defaultProjectId"]).

(** [loadConfig()] over [process.env]: the configuration, or the message
    of the error thrown. *)
Definition loadConfig (env : gmap string string) : Config + string :=
  let allowHeaderAuth :=
    match env !! "CONTEXTSTREAM_ALLOW_HEADER_AUTH" with
    | Some v => String.eqb v "1" || String.eqb v "true" || String.eqb v "yes"
    | None => false
    end in
  match issues env with
  | _ :: _ =>
      inr ("Invalid configuration. Set CONTEXTSTREAM_API_URL (and API key or JWT). Missing/invalid: "
           ++ Js.join ", " (issues env))
  | [] =>
      let data :=
        {| apiUrl := default "" (env !! "CONTEXTSTREAM_API_URL");
           apiKey := env !! "CONTEXTSTREAM_API_KEY";
           jwt := env !! "CONTEXTSTREAM_JWT";
           defaultWorkspaceId := env !! "CONTEXTSTREAM_WORKSPACE_ID";
           defaultProjectId := env !! "CONTEXTSTREAM_PROJECT_ID";
           userAgent := default "contextstream-mcp/0.1.0" (env !! "CONTEXTSTREAM_USER_AGENT");
           allowHeaderAuth := allowHeaderAuth |} in
      if negb (Js.truthy_opt (apiKey data)) && negb (Js.truthy_opt (jwt data))
         && negb (allowHeaderAuth)
      then inr "Set CONTEXTSTREAM_API_KEY or CONTEXTSTREAM_JWT for authentication (or CONTEXTSTREAM_ALLOW_HEADER_AUTH=true for header-based auth)."
      else inl data
  end.

End Schema.

End ConfigLoader.

(** ** Saved credentials (credentials.ts) *)

Module Credentials.

(** [s.replace(/\/+$/, '')]: drop every trailing slash. *)
Fixpoint dropTrailingSlashes (s : string) : string :=
  match s with
  | EmptyString => EmptyString
  | String c s' =>
      match dropTrailingSlashes s' with
      | EmptyString => if Ascii.eqb c "/"%char then EmptyString else String c EmptyString
      | t => String c t
      end
  end.

Definition normalizeApiUrl (input : string) : string :=
  dropTrailingSlashes (Js.trim input).

End Credentials.

(** ** Editor hooks configuration *)

Module Hooks.

Record ClaudeHook := {
  hook_type : string;
  command : option string;
  timeout : option Z;
}.

Record ClaudeHookMatcher := {
  matcher : string;
  hooks : option (list ClaudeHook);
}.

(** [ClaudeHooksConfig["hooks"]]: the matchers of each hook type. *)
Abbreviation HooksConfig := (gmap string (list ClaudeHookMatcher)).

(** A settings object: its [hooks] and its other keys, which the merge
    copies as they are. *)
Record Settings (Other : Type) := {
  s_hooks : option HooksConfig;
  s_other : Other;
}.
Arguments s_hooks {Other} _.
Arguments s_other {Other} _.

(** [m.hooks?.some((h) => h.command?.includes("contextstream"))] *)
Definition isContextStream (m : ClaudeHookMatcher) : bool :=
  match hooks m with
  | Some hs =>
      existsb (fun h => match command h with
                        | Some c => Js.includes "contextstream" c
                        | None => false
                        end) hs
  | None => false
  end.

(** One iteration of the loop over [Object.entries(newHooks)]. *)
Definition mergeHookType (hookType : string) (matchers : list ClaudeHookMatcher)
    (existingHooks : HooksConfig) : HooksConfig :=
  let existing := default [] (existingHooks !! hookType) in
  let filtered := List.filter (fun m => negb (isContextStream m)) existing in
  <[hookType := (filtered ++ matchers)%list]> existingHooks.

Definition mergeHooksIntoSettings {Other} (existingSettings : Settings Other)
    (newHooks : option HooksConfig) : Settings Other :=
  let existingHooks := default ∅ (s_hooks existingSettings) in
  {| s_hooks := Some (map_fold mergeHookType existingHooks (default ∅ newHooks));
     s_other := s_other existingSettings |}.

Section Paths.

(** [path.join(dir, file)] *)
Variable path_join : string -> string -> string.
(** [getHooksDir()] *)
Variable hooksDir : string.

(** The double quote character, as a string. *)
Definition quote : string := String (ascii_of_nat 34) EmptyString.

(** A hook running [python3 "<hooksDir>/<script>"]. *)
Definition commandHook (script : string) (seconds : Z) : ClaudeHook :=
  {| hook_type := "command";
     command := Some ("python3 " ++ quote ++ path_join hooksDir script ++ quote);
     timeout := Some seconds |}.

Definition buildHooksConfig (includePreCompact : bool) : HooksConfig :=
  let config : HooksConfig :=
    {[ "PreToolUse" :=
         [ {| matcher := "Glob|Grep|Search|Task|EnterPlanMode";
              hooks := Some [commandHook "contextstream-redirect.py" 5] |} ];
       "UserPromptSubmit" :=
         [ {| matcher := "*";
              hooks := Some [commandHook "contextstream-reminder.py" 5] |} ] ]} in
  if includePreCompact
  then <["PreCompact" :=
           [ {| matcher := "*";
                hooks := Some [commandHook "contextstream-precompact.py" 10] |} ]]> config
  else config.

End Paths.

End Hooks.

(** ** Further observations *)

Module Coverage.
Import Http.


(** The error the loop builds from a failing response whose body was read. *)
Definition response_error (r : Response) : HttpError :=
  newHttpError (resp_status r) (error_message (read_payload r) r) (Some (read_payload r)).


(** The statuses that [statusToCode] maps to a kind of their own. *)
Definition mapped_statuses : list Z :=
  [0; 400; 401; 403; 404; 409; 422; 429; 500; 502; 503; 504].

(** The two errors of an aborted fetch. *)
Definition cancelled_error : HttpError := newHttpError 0 "Request cancelled by user" None.
Definition timeout_error : HttpError :=
  newHttpError 0 "Request timeout after 180 seconds" None.

(** Options that differ in their signal only. *)
Definition with_signal (sig : option bool) (options : RequestOptions) : RequestOptions :=
  {| method := method options; opt_body := opt_body options; signal := sig;
     retries := retries options; retryDelay := retryDelay options |}.

(** A configuration with the given API URL. *)
Definition with_apiUrl (u : string) (config : Config) : Config :=
  {| apiUrl := u; apiKey := apiKey config; jwt := jwt config;
     userAgent := userAgent config |}.

(** [s] contains the character [c]. *)
Fixpoint contains_char (c : ascii) (s : string) : bool :=
  match s with
  | EmptyString => false
  | String a s' => Ascii.eqb a c || contains_char c s'
  end.

(** A non-empty string without a dot: one segment of a token. *)
Definition segment (s : string) : Prop := s <> "" /\ contains_char "."%char s = false.

Definition keyed_request : Gateway.IncomingMessage :=
  {| Gateway.url := Some "/mcp"; Gateway.req_method := Some "POST";
     Gateway.headers := {[ "x-api-key" := Gateway.HStr "key-1" ]} |}.

Definition bare_request : Gateway.IncomingMessage :=
  {| Gateway.url := Some "/mcp"; Gateway.req_method := Some "POST";
     Gateway.headers := {[ "mcp-session-id" := Gateway.HStr "s1" ]} |}.

(** A transport that assigns the session id ["s9"] to a session without one. *)
Definition assigning_handler : Gateway.Handler :=
  fun _ _ _ entry =>
    {| Gateway.h_sessionId := Some "s9"; Gateway.h_closed := [];
       Gateway.h_throws := None |}.

(** A transport that fails. *)
Definition failing_handler : Gateway.Handler :=
  fun _ _ _ entry =>
    {| Gateway.h_sessionId := None; Gateway.h_closed := [];
       Gateway.h_throws := Some {| Gateway.rej_message := Some "boom";
                                   Gateway.rej_headersSent := false |} |}.

(** A transport that fails after it began the response. *)
Definition late_failing_handler : Gateway.Handler :=
  fun _ _ _ entry =>
    {| Gateway.h_sessionId := None; Gateway.h_closed := [];
       Gateway.h_throws := Some {| Gateway.rej_message := Some "boom";
                                   Gateway.rej_headersSent := true |} |}.

(** The value of a string of decimal digits; [None] when another
    character occurs in it. *)
Fixpoint allDigits (acc : Z) (s : string) : option Z :=
  match s with
  | EmptyString => Some acc
  | String c s' =>
      match Js.digitValue c with
      | Some d => allDigits (10 * acc + d) s'
      | None => None
      end
  end.

(** The numbers of the version segments of the examples.  White space
    around a segment is dropped; what is left is 0 when it is empty, the
    number of its decimal digits when it is made of digits after an
    optional sign, and [NaN] otherwise.  [Number] agrees on every segment
    but the numeric literals of another form (an exponent, a radix
    prefix, Infinity), which the examples do not use. *)
Definition segment_number (s : string) : Js.Number :=
  let digits (negative : bool) (t : string) : Js.Number :=
    match t, allDigits 0 t with
    | String _ _, Some n => Js.toDouble (if negative then - n else n)
    | _, _ => Js.NaN
    end in
  match Js.trim s with
  | EmptyString => Js.Finite 0
  | String "-" t => digits true t
  | String "+" t => digits false t
  | t => digits false t
  end.

(** [path.join(dir, file)] for a plain file name. *)
Definition slash_join (dir file : string) : string := dir ++ "/" ++ file.

(** Every matcher of a configuration is one of ContextStream's. *)
Definition all_contextstream (cfg : gmap string (list Hooks.ClaudeHookMatcher)) : Prop :=
  forall t ms, cfg !! t = Some ms -> Forall (fun m => Hooks.isContextStream m = true) ms.

(** A hook of another tool, and settings that hold it. *)
Definition foreign_matcher : Hooks.ClaudeHookMatcher :=
  {| Hooks.matcher := "Bash";
     Hooks.hooks := Some [ {| Hooks.hook_type := "command";
                              Hooks.command := Some "lint.sh";
                              Hooks.timeout := None |} ] |}.

Definition foreign_settings : Hooks.Settings unit :=
  {| Hooks.s_hooks := Some {[ "PreToolUse" := [foreign_matcher] ]};
     Hooks.s_other := tt |}.

(** An environment with an API URL and a key. *)
Definition key_env : gmap string string :=
  {[ "CONTEXTSTREAM_API_URL" := "https://api.example.com";
     "CONTEXTSTREAM_API_KEY" := "k" ]}.



(** An overlay carries a credential. *)
Definition has_credential (o : AuthContext.AuthOverride) : bool :=
  Js.truthy_opt (AuthContext.jwt o) || Js.truthy_opt (AuthContext.apiKey o).

End Coverage.

(** ** Facts about the JavaScript helpers *)

Module JsFacts.
Import Js.

Import Observations.




Example parseInt10_samples :
  parseInt10 "120" = Finite 120 /\ parseInt10 " 42abc" = Finite 42 /\
  parseInt10 "-5" = Finite (-5) /\ parseInt10 "" = NaN /\
  parseInt10 "Wed, 21 Oct 2015 07:28:00 GMT" = NaN /\
  parseInt10 "9007199254740993" = Finite 9007199254740992 /\
  parseInt10 "9007199254740995" = Finite 9007199254740996 /\
  parseInt10 (String (ascii_of_nat 160) "7") = Finite 7.
Proof. vm_compute. repeat split; reflexivity. Qed.




Example split_samples :
  split "." "a.b.c" = ["a"; "b"; "c"] /\ split "." "" = [""] /\
  split "." "a..c" = ["a"; ""; "c"] /\ split " " "Bearer tok" = ["Bearer"; "tok"].
Proof. repeat split; reflexivity. Qed.

Example trim_samples :
  trim "  a b  " = "a b" /\ trim "   " = "" /\ toLowerCase "BeArEr" = "bearer".
Proof. repeat split; reflexivity. Qed.

End JsFacts.


(** ** Facts about the dispatcher *)

Module HttpFacts.
Import Http.

Import Observations.

Lemma classified_new st msg b : classified (newHttpError st msg b).
Proof. reflexivity. Qed.

Lemma fetch_attempts_emit_fetch a req r :
  fetch_attempts (trace (emit (EvFetch a req) r)) = a :: fetch_attempts (trace r).
Proof. reflexivity. Qed.

Lemma fetch_attempts_emit_sleep d r :
  fetch_attempts (trace (emit (EvSleep d) r)) = fetch_attempts (trace r).
Proof. reflexivity. Qed.

Lemma sleeps_emit_fetch a req r :
  sleeps (trace (emit (EvFetch a req) r)) = sleeps (trace r).
Proof. reflexivity. Qed.

Lemma sleeps_emit_sleep d r :
  sleeps (trace (emit (EvSleep d) r)) = d :: sleeps (trace r).
Proof. reflexivity. Qed.

Lemma outcome_emit ev r : outcome (emit ev r) = outcome r.
Proof. reflexivity. Qed.

Lemma outcome_emits evs r : outcome (emits evs r) = outcome r.
Proof. reflexivity. Qed.

(** The calls of [abort()] are neither fetches nor sleeps. *)
Lemma fetch_attempts_aborts (l : list Z) cause :
  fetch_attempts ((fun i => EvAbort i cause) <$> l) = [].
Proof. induction l as [|i l IH]; [reflexivity|exact IH]. Qed.

Lemma sleeps_aborts (l : list Z) cause :
  sleeps ((fun i => EvAbort i cause) <$> l) = [].
Proof. induction l as [|i l IH]; [reflexivity|exact IH]. Qed.

Lemma fetch_attempts_abort_events ab a : fetch_attempts (abort_events ab a) = [].
Proof. destruct ab as [[|ms]|]; [apply fetch_attempts_aborts|reflexivity..]. Qed.

Lemma sleeps_abort_events ab a : sleeps (abort_events ab a) = [].
Proof. destruct ab as [[|ms]|]; [apply sleeps_aborts|reflexivity..]. Qed.

Lemma fetch_attempts_backoff_aborts sig f a : fetch_attempts (backoff_aborts sig f a) = [].
Proof.
  unfold backoff_aborts. destruct (listener_runs sig f); [apply fetch_attempts_aborts|done].
Qed.

Lemma sleeps_backoff_aborts sig f a : sleeps (backoff_aborts sig f a) = [].
Proof.
  unfold backoff_aborts. destruct (listener_runs sig f); [apply sleeps_aborts|done].
Qed.

Lemma fetch_attempts_emits evs r :
  fetch_attempts evs = [] ->
  fetch_attempts (trace (emits evs r)) = fetch_attempts (trace r).
Proof.
  intros H. unfold fetch_attempts in *. cbn [emits trace]. by rewrite omap_app, H.
Qed.

Lemma sleeps_emits evs r :
  sleeps evs = [] -> sleeps (trace (emits evs r)) = sleeps (trace r).
Proof.
  intros H. unfold sleeps in *. cbn [emits trace]. by rewrite omap_app, H.
Qed.

Lemma outcome_emit_abort ab a r : outcome (emit_abort ab a r) = outcome r.
Proof. reflexivity. Qed.

Lemma fetch_attempts_emit_abort ab a r :
  fetch_attempts (trace (emit_abort ab a r)) = fetch_attempts (trace r).
Proof. apply fetch_attempts_emits, fetch_attempts_abort_events. Qed.

Lemma sleeps_emit_abort ab a r :
  sleeps (trace (emit_abort ab a r)) = sleeps (trace r).
Proof. apply sleeps_emits, sleeps_abort_events. Qed.

(** The loop, one iteration unfolded. *)
Lemma request_loop_unfold M B req world a sig lastError :
  request_loop M B req world a sig lastError =
  if a <=? M then
    emit (EvFetch a req)
      (emit_abort (it_aborted (attempt_body M B a sig (world a))) a
         match it_step (attempt_body M B a sig (world a)) with
         | Stop o => ended o
         | Continue e delay =>
             emit (EvSleep delay)
               (emits
                  (backoff_aborts (it_signal (attempt_body M B a sig (world a)))
                     (caller_aborts_in_backoff (world a)) a)
                  (request_loop M B req world (a + 1)
                     (fire (it_signal (attempt_body M B a sig (world a)))
                           (caller_aborts_in_backoff (world a)))
                     (Some e)))
         end)
  else ended (Thrown (default (newHttpError 0 "Request failed after retries" None)
                        lastError)).
Proof.
  simp request_loop.
  destruct (Z_le_gt_dec a M) as [Hle|Hgt]; simpl.
  - by rewrite (proj2 (Z.leb_le a M) Hle).
  - by rewrite (proj2 (Z.leb_gt a M)); [|lia].
Qed.

(** A step that stops ends the loop after this one fetch. *)
Lemma request_loop_stop M B req world a sig lastError o :
  a <= M ->
  it_step (attempt_body M B a sig (world a)) = Stop o ->
  outcome (request_loop M B req world a sig lastError) = o /\
  fetch_attempts (trace (request_loop M B req world a sig lastError)) = [a] /\
  sleeps (trace (request_loop M B req world a sig lastError)) = [].
Proof.
  intros Hle Hs. rewrite request_loop_unfold, (proj2 (Z.leb_le a M) Hle), Hs.
  rewrite outcome_emit, outcome_emit_abort, fetch_attempts_emit_fetch, sleeps_emit_fetch.
  by rewrite fetch_attempts_emit_abort, sleeps_emit_abort.
Qed.

(** A step that continues sleeps for its delay and runs the next attempt. *)
Lemma request_loop_continue M B req world a sig lastError e d :
  a <= M ->
  it_step (attempt_body M B a sig (world a)) = Continue e d ->
  let rest := request_loop M B req world (a + 1)
                (fire (it_signal (attempt_body M B a sig (world a)))
                      (caller_aborts_in_backoff (world a))) (Some e) in
  outcome (request_loop M B req world a sig lastError) = outcome rest /\
  fetch_attempts (trace (request_loop M B req world a sig lastError))
    = a :: fetch_attempts (trace rest) /\
  sleeps (trace (request_loop M B req world a sig lastError))
    = d :: sleeps (trace rest).
Proof.
  intros Hle Hs rest.
  rewrite request_loop_unfold, (proj2 (Z.leb_le a M) Hle), Hs. fold rest.
  rewrite outcome_emit, outcome_emit_abort, fetch_attempts_emit_fetch, sleeps_emit_fetch.
  rewrite fetch_attempts_emit_abort, sleeps_emit_abort.
  rewrite outcome_emit, fetch_attempts_emit_sleep, sleeps_emit_sleep, outcome_emits.
  by rewrite (fetch_attempts_emits _ _ (fetch_attempts_backoff_aborts _ _ _)),
    (sleeps_emits _ _ (sleeps_backoff_aborts _ _ _)).
Qed.

(** The payload read from a response is its decoded body, or [null] when
    the read was cut short. *)
Lemma await_body_payload sig env r :
  fst (await_body sig env r) = read_payload r \/ fst (await_body sig env r) = PNull.
Proof. unfold await_body. destruct (listener_runs _ _); cbn; auto. Qed.

(** The step of an iteration, by the way its fetch ended. *)
Lemma attempt_body_step M B a sig env :
  it_step (attempt_body M B a sig env) =
  match fst (await_fetch sig env) with
  | Rejected name msg =>
      on_rejected M B a (fire sig (caller_aborts_in_flight env)) name msg
  | Fulfilled r =>
      on_response M B a r
        (fst (await_body (fire sig (caller_aborts_in_flight env)) env r))
  end.
Proof.
  unfold attempt_body. by destruct (await_fetch sig env) as [[r|name msg] ab].
Qed.

(** A step continues only while retries remain. *)
Lemma continue_budget M B a sig env e d :
  it_step (attempt_body M B a sig env) = Continue e d -> a < M.
Proof.
  rewrite attempt_body_step. unfold on_rejected, on_response.
  destruct (fst (await_fetch sig env)) as [r|name msg].
  - destruct (negb (resp_ok r)); [|done].
    destruct (retryable_status (resp_status r)); cbn [andb]; [|done].
    destruct (a <? M) eqn:Hlt; [|done]. intros _. by apply Z.ltb_lt.
  - destruct (String.eqb name "AbortError").
    + by destruct (aborted _).
    + destruct (a <? M) eqn:Hlt; [|done]. intros _. by apply Z.ltb_lt.
Qed.

(** How a fetch ends, by what the world does. *)
Lemma await_fetch_fulfilled sig env r :
  fst (await_fetch sig env) = Fulfilled r ->
  settle env = Resolves r /\ listener_runs sig (caller_aborts_in_flight env) = false.
Proof.
  unfold await_fetch. destruct (listener_runs _ _); [discriminate|].
  destruct (settle env); cbn; [|discriminate..]. by intros [= ->].
Qed.

Lemma await_fetch_rejected sig env name msg :
  fst (await_fetch sig env) = Rejected name msg ->
  String.eqb name "AbortError" = false ->
  settle env = Rejects name msg /\
  listener_runs sig (caller_aborts_in_flight env) = false.
Proof.
  unfold await_fetch. destruct (listener_runs _ _).
  - cbn. intros [= <- <-]. discriminate.
  - destruct (settle env); cbn; [discriminate| |].
    + by intros [= -> ->].
    + intros [= <- <-]. discriminate.
Qed.


Lemma step_error_classified M B a sig env e :
  step_error (it_step (attempt_body M B a sig env)) = Some e -> classified e.
Proof.
  rewrite attempt_body_step. unfold on_rejected, on_response.
  destruct (fst (await_fetch sig env)) as [r|name msg].
  - destruct (negb (resp_ok r)); [|done].
    destruct (_ && _); cbn; intros [= <-]; apply classified_new.
  - destruct (String.eqb name "AbortError").
    + destruct (aborted _); cbn; intros [= <-]; apply classified_new.
    + destruct (a <? M); cbn; intros [= <-]; apply classified_new.
Qed.

(** A step continues exactly on a failure the policy retries, while
    retries remain. *)
Lemma step_continue_inv M B a sig env e d :
  it_step (attempt_body M B a sig env) = Continue e d ->
  a < M /\
  ((exists r payload,
       settle env = Resolves r /\ resp_ok r = false /\
       retryable_status (resp_status r) = true /\
       (payload = read_payload r \/ payload = PNull) /\
       e = newHttpError (resp_status r) (error_message payload r) (Some payload) /\
       d = response_delay r B a) \/
   (exists name msg,
       settle env = Rejects name msg /\
       String.eqb name "AbortError" = false /\
       e = newHttpError 0
             (default "Network error" (Js.or_else msg (Some "Network error"))) None /\
       d = Js.Finite (backoff B a))).
Proof.
  intros Hs. split; [by eapply continue_budget|]. revert Hs.
  rewrite attempt_body_step. unfold on_rejected, on_response.
  destruct (fst (await_fetch sig env)) as [r|name msg] eqn:Hf.
  - destruct (resp_ok r) eqn:Hok; cbn [negb]; [done|].
    destruct (retryable_status (resp_status r)) eqn:Hr; cbn [andb]; [|done].
    destruct (a <? M); [|done]. intros [= <- <-].
    left. exists r, (fst (await_body (fire sig (caller_aborts_in_flight env)) env r)).
    split; [by apply (await_fetch_fulfilled sig)|].
    repeat split; try done. apply await_body_payload.
  - destruct (String.eqb name "AbortError") eqn:Hn; [by destruct (aborted _)|].
    destruct (a <? M); [|done]. intros [= <- <-].
    right. exists name, msg. split; [by apply (await_fetch_rejected sig)|]. done.
Qed.

(** A step continues after a response of a retryable status or after a
    rejection that is no abort, with the controller of the fetch left
    alone. *)
Lemma step_continue_fetch M B a sig env e d :
  it_step (attempt_body M B a sig env) = Continue e d ->
  (exists r,
      fst (await_fetch sig env) = Fulfilled r /\ resp_ok r = false /\
      retryable_status (resp_status r) = true /\ status e = resp_status r) \/
  (exists name msg,
      fst (await_fetch sig env) = Rejected name msg /\
      snd (await_fetch sig env) = None /\
      String.eqb name "AbortError" = false /\ status e = 0).
Proof.
  rewrite attempt_body_step. unfold on_rejected, on_response.
  destruct (fst (await_fetch sig env)) as [r|name msg] eqn:Hf.
  - destruct (resp_ok r) eqn:Hok; cbn [negb]; [done|].
    destruct (retryable_status (resp_status r)) eqn:Hr; cbn [andb]; [|done].
    destruct (a <? M); [|done]. intros [= <- <-]. left. by exists r.
  - destruct (String.eqb name "AbortError") eqn:Hn; [by destruct (aborted _)|].
    destruct (a <? M); [|done]. intros [= <- <-]. right. exists name, msg.
    split; [done|]. split; [|done].
    destruct (await_fetch_rejected sig env name msg Hf Hn) as [Hs Hl].
    unfold await_fetch. by rewrite Hl, Hs.
Qed.

(** A fetch whose controller was aborted rejects with an AbortError, and
    its iteration throws the error of a cancellation or of a timeout. *)
Lemma aborted_fetch_stops M B a sig env cause :
  snd (await_fetch sig env) = Some cause ->
  fst (await_fetch sig env) = abortError /\
  (it_step (attempt_body M B a sig env)
     = Stop (Thrown (newHttpError 0 "Request cancelled by user" None)) \/
   it_step (attempt_body M B a sig env)
     = Stop (Thrown (newHttpError 0 "Request timeout after 180 seconds" None))).
Proof.
  intros Hab.
  assert (Hf : fst (await_fetch sig env) = abortError).
  { revert Hab. unfold await_fetch. destruct (listener_runs _ _); [done|].
    by destruct (settle env). }
  split; [done|]. rewrite attempt_body_step, Hf. unfold abortError, on_rejected.
  cbn [String.eqb Ascii.eqb Bool.eqb]. destruct (aborted _); auto.
Qed.




End HttpFacts.

(** ** The retry policy of the dispatcher *)

Module DispatcherClaims.
Import Http Observations Scenarios HttpFacts.

(** Every fetch of a call carries the request built before the loop. *)
Lemma request_loop_same_request (n : nat) :
  forall M B req world a sig lastError,
    Z.to_nat (M + 1 - a) = n ->
    Forall (fun ev => match ev with EvFetch _ r => r = req | _ => True end)
      (trace (request_loop M B req world a sig lastError)).
Proof.
  induction n as [|n IH]; intros M B req world a sig lastError Hn;
    rewrite request_loop_unfold.
  - rewrite (proj2 (Z.leb_gt a M)) by lia. constructor.
  - rewrite (proj2 (Z.leb_le a M)) by lia.
    assert (Hab : forall (l : list Z) cause,
              Forall (fun ev => match ev with EvFetch _ r => r = req | _ => True end)
                ((fun i => EvAbort i cause) <$> l)).
    { intros l cause. induction l; by constructor. }
    cbn [emit emit_abort emits trace]. constructor; [done|].
    apply Forall_app. split.
    { destruct (it_aborted _) as [[|ms]|]; cbn [abort_events];
        [apply Hab|by repeat constructor|constructor]. }
    destruct (it_step (attempt_body M B a sig (world a))) as [o|e d] eqn:Hs.
    + constructor.
    + cbn [emit emits trace]. constructor; [done|]. apply Forall_app. split.
      * unfold backoff_aborts. destruct (listener_runs _ _); [apply Hab|constructor].
      * apply IH. pose proof (continue_budget _ _ _ _ _ _ _ Hs). lia.
Qed.

Lemma identity_of_build_headers config :
  identity_headers (build_headers config)
  = credential_headers (apiKey config) (jwt config).
Proof.
  unfold build_headers, credential_headers, identity_headers.
  destruct (Js.truthy_opt (apiKey config)), (Js.truthy_opt (jwt config)); reflexivity.
Qed.

(** C1, as the code has it: the identity headers of every fetch of a
    call are those of the credentials of the [config] argument of
    [request] -- [X-API-Key] when [config.apiKey] is set, [Authorization:
    Bearer] when [config.jwt] is set, none when neither is -- whatever
    overlay is installed around the call; [request] does not read the
    overlay. *)
Theorem identity_headers_from_config overlay config path options world :
  Forall (fun ids =>
            ids = credential_headers (apiKey config) (jwt config) /\
            if Js.truthy_opt (apiKey config) || Js.truthy_opt (jwt config)
            then True else ids = [])
    (fetch_identities (trace (request_within overlay config path options world))).
Proof.
  unfold request_within, AuthContext.runWithAuthOverride, request.
  pose proof (request_loop_same_request _ (default MAX_RETRIES (retries options))
                (default BASE_DELAY (retryDelay options))
                (build_fetch config path options) world 0 (signal options) None eq_refl)
    as Hall.
  induction Hall as [|ev t Hev _ IH]; [constructor|].
  destruct ev as [a r| | ]; cbn; [|exact IH|exact IH].
  constructor; [|exact IH]. subst r. cbn [fr_headers build_fetch].
  rewrite identity_of_build_headers. split; [done|].
  unfold credential_headers.
  by destruct (Js.truthy_opt (apiKey config)), (Js.truthy_opt (jwt config)).
Qed.

(** C1, counterexample: with an overlay carrying an API key installed
    and a configuration without credentials, the overlay is readable but
    the fetch carries no identity header; with no overlay credential and
    a configured key, the fetch is sent with that key. *)
Lemma overlay_not_used_by_request :
  let header_auth := {| apiUrl := "https://api.example.com"; apiKey := None;
                        jwt := None; userAgent := "ua" |} in
  let env_auth := {| apiUrl := "https://api.example.com"; apiKey := Some "env-key";
                     jwt := None; userAgent := "ua" |} in
  let world := fun _ : Z => quiet (Resolves (text_response 200 None)) in
  AuthContext.getAuthOverride (AuthContext.runWithAuthOverride (Some overlay_with_key) id)
    = Some overlay_with_key /\
  credential_headers (AuthContext.apiKey overlay_with_key) (AuthContext.jwt overlay_with_key)
    = [("X-API-Key", "overlay-key")] /\
  fetch_identities (trace (request_within (Some overlay_with_key) header_auth "/x"
                             plain_options world)) = [[]] /\
  fetch_identities (trace (request_within None env_auth "/x" plain_options world))
    = [[("X-API-Key", "env-key")]].
Proof. vm_compute. repeat split; reflexivity. Qed.


(** Two rate-limited attempts followed by a success: three attempts,
    two sleeps of 1 s and 2 s, and the payload of the third attempt. *)
Example rate_limited_twice_then_success :
  fetch_attempts (trace (request example_config "/x" plain_options rate_limited_twice))
    = [0; 1; 2] /\
  sleeps (trace (request example_config "/x" plain_options rate_limited_twice))
    = [Js.Finite 1000; Js.Finite 2000] /\
  outcome (request example_config "/x" plain_options rate_limited_twice)
    = Returned (PText "body").
Proof. vm_compute. repeat split; reflexivity. Qed.

(** A validation failure on the first attempt: one attempt, no sleep. *)
Example validation_fails_at_once :
  fetch_attempts (trace (request example_config "/x" plain_options
                           (always (text_response 422 None)))) = [0] /\
  sleeps (trace (request example_config "/x" plain_options
                   (always (text_response 422 None)))) = [] /\
  outcome (request example_config "/x" plain_options (always (text_response 422 None)))
    = Thrown (newHttpError 422 "status" (Some (PText "body"))).
Proof. vm_compute. repeat split; reflexivity. Qed.

Lemma retryable_status_kind st :
  retryable_status st = true ->
  transient_kind (statusToCode st) = true \/ st = 408.
Proof.
  unfold retryable_status, RETRYABLE_STATUSES. cbn [existsb].
  intros H.
  repeat (apply orb_prop in H; destruct H as [H|H]); try discriminate;
    apply Z.eqb_eq in H; subst st; vm_compute; auto.
Qed.

(** C3, as the code has it: a failed attempt is followed by another one
    only if retries remain and either its fetch rejected with an error
    other than an AbortError while nobody aborted its controller (a
    network failure), or its response has one of the statuses 408, 429,
    500, 502, 503, 504, so a transient kind or the status 408, which is
    classified unknown.  An attempt whose fetch was aborted, by the caller
    or by the timer, ends the call with the error of a cancellation or of
    a timeout, whatever retries remain; a failure of a non-retryable
    kind, 408 apart, ends the call at once with that error. *)
Theorem retry_policy M B req world a sig lastError e :
  a <= M ->
  step_error (it_step (attempt_body M B a sig (world a))) = Some e ->
  (In (a + 1) (fetch_attempts (trace (request_loop M B req world a sig lastError))) ->
     a < M /\
     ((exists name msg,
          fst (await_fetch sig (world a)) = Rejected name msg /\
          name <> "AbortError" /\
          snd (await_fetch sig (world a)) = None /\
          code e = NETWORK_ERROR) \/
      (exists r,
          fst (await_fetch sig (world a)) = Fulfilled r /\
          status e = resp_status r /\
          In (status e) RETRYABLE_STATUSES /\
          (transient_kind (code e) = true \/ status e = 408)))) /\
  (forall cause,
     snd (await_fetch sig (world a)) = Some cause ->
     (e = newHttpError 0 "Request cancelled by user" None \/
      e = newHttpError 0 "Request timeout after 180 seconds" None) /\
     outcome (request_loop M B req world a sig lastError) = Thrown e /\
     fetch_attempts (trace (request_loop M B req world a sig lastError)) = [a]) /\
  (terminal_kind (code e) = true -> status e <> 408 ->
     outcome (request_loop M B req world a sig lastError) = Thrown e /\
     fetch_attempts (trace (request_loop M B req world a sig lastError)) = [a]).
Proof.
  intros Hle He.
  destruct (it_step (attempt_body M B a sig (world a))) as [o|e' d] eqn:Hs.
  - destruct (request_loop_stop M B req world a sig lastError o Hle Hs) as (-> & -> & _).
    destruct o as [p|e0]; cbn in He; [discriminate|]. injection He as ->.
    split; [intros [Hin|[]]; lia|]. split; [|by intros _ _].
    intros cause Hab. split; [|done].
    destruct (aborted_fetch_stops M B a sig (world a) cause Hab) as [_ [H|H]];
      rewrite Hs in H; injection H as ->; auto.
  - cbn in He. injection He as ->.
    pose proof (continue_budget _ _ _ _ _ _ _ Hs) as Hlt.
    assert (Hc : classified e).
    { eapply step_error_classified. by rewrite Hs. }
    destruct (step_continue_fetch _ _ _ _ _ _ _ Hs)
      as [(r & Hf & _ & Hr & Hst)|(name & msg & Hf & Hab & Hn & Hst)].
    + assert (Hkind : transient_kind (code e) = true \/ status e = 408).
      { rewrite Hc, Hst. by apply retryable_status_kind. }
      split; [|split].
      * intros _. split; [done|]. right. exists r. repeat split; try done.
        rewrite Hst. unfold retryable_status in Hr.
        apply existsb_exists in Hr as (x & Hin & ->%Z.eqb_eq). exact Hin.
      * intros cause Hab.
        destruct (aborted_fetch_stops M B a sig (world a) cause Hab) as [_ [H|H]];
          rewrite Hs in H; discriminate.
      * intros Ht H408. destruct Hkind as [Htr|?]; [|done].
        destruct (code e); discriminate.
    + assert (Hcode : code e = NETWORK_ERROR) by (by rewrite Hc, Hst).
      split; [|split].
      * intros _. split; [done|]. left. exists name, msg. repeat split; try done.
        intros ->. discriminate.
      * intros cause Hab'. congruence.
      * intros Ht _. rewrite Hcode in Ht. discriminate.
Qed.

Lemma retry_policy_witness :
  0 <= 3 /\
  step_error (it_step (attempt_body 3 1000 0 None (always (text_response 422 None) 0)))
    = Some (newHttpError 422 "status" (Some (PText "body"))) /\
  outcome (request_loop 3 1000 (build_fetch example_config "/x" plain_options)
             (always (text_response 422 None)) 0 None None)
    = Thrown (newHttpError 422 "status" (Some (PText "body"))).
Proof.
  split; [lia|]. split; [reflexivity|].
  destruct (retry_policy 3 1000 (build_fetch example_config "/x" plain_options)
              (always (text_response 422 None)) 0 None None
              (newHttpError 422 "status" (Some (PText "body")))) as (_ & _ & H);
    [lia|reflexivity|].
  apply H; [reflexivity|vm_compute; discriminate].
Defined.

(** C3, counterexample: a response with status 408 is classified
    unknown, is no network failure, and is retried until the retries are
    used up. *)
Lemma status_408_is_retried :
  it_step (attempt_body MAX_RETRIES BASE_DELAY 0 None (always (text_response 408 None) 0))
    = Continue (newHttpError 408 "status" (Some (PText "body"))) (Js.Finite 1000) /\
  code (newHttpError 408 "status" (Some (PText "body"))) = UNKNOWN_ERROR /\
  terminal_kind UNKNOWN_ERROR = true /\ transient_kind UNKNOWN_ERROR = false /\
  fetch_attempts (trace (request example_config "/x" plain_options
                           (always (text_response 408 None))))
    = [0; 1; 2; 3].
Proof. vm_compute. repeat split; reflexivity. Qed.

Lemma not_aborted_no_listener sig fires :
  aborted (fire sig fires) = false -> listener_runs sig fires = false.
Proof. destruct sig as [[]|], fires; cbn; congruence. Qed.

(** C4, as the code has it: an attempt whose fetch is still pending when
    its timer fires, while the caller's signal is not aborted, is aborted
    and ends the call at once with the network error "Request timeout
    after 180 seconds"; no further attempt is made, whatever retries
    remain. *)
Theorem timeout_is_terminal M B req world a sig lastError :
  a <= M ->
  settle (world a) = Hangs ->
  aborted (fire sig (caller_aborts_in_flight (world a))) = false ->
  trace (request_loop M B req world a sig lastError)
    = [EvFetch a req; EvAbort a (ByTimer 180000)] /\
  outcome (request_loop M B req world a sig lastError)
    = Thrown (newHttpError 0 "Request timeout after 180 seconds" None) /\
  code (newHttpError 0 "Request timeout after 180 seconds" None) = NETWORK_ERROR.
Proof.
  intros Hle Hh Hna.
  rewrite request_loop_unfold, (proj2 (Z.leb_le a M) Hle).
  unfold attempt_body, await_fetch.
  rewrite (not_aborted_no_listener _ _ Hna), Hh.
  cbn [abortError it_step it_aborted]. unfold on_rejected.
  cbn [String.eqb Ascii.eqb Bool.eqb]. rewrite Hna.
  by repeat split.
Qed.

Lemma timeout_is_terminal_witness :
  0 <= 3 /\ settle (hangs_first 0) = Hangs /\
  aborted (fire None (caller_aborts_in_flight (hangs_first 0))) = false /\
  outcome (request_loop 3 1000 (build_fetch example_config "/x" plain_options)
             hangs_first 0 None None)
    = Thrown (newHttpError 0 "Request timeout after 180 seconds" None).
Proof.
  split; [lia|]. split; [reflexivity|]. split; [reflexivity|].
  apply (timeout_is_terminal 3 1000 (build_fetch example_config "/x" plain_options)
           hangs_first 0 None None); [lia|reflexivity|reflexivity].
Defined.

(** C4, counterexample: the first attempt times out with three retries
    left and a backend that would answer the second attempt; the call
    makes no second attempt. *)
Lemma timeout_not_retried :
  0 < MAX_RETRIES /\
  fetch_attempts (trace (request example_config "/x" plain_options hangs_first)) = [0] /\
  sleeps (trace (request example_config "/x" plain_options hangs_first)) = [] /\
  outcome (request example_config "/x" plain_options hangs_first)
    = Thrown (newHttpError 0 "Request timeout after 180 seconds" None).
Proof. vm_compute. repeat split; reflexivity. Qed.

(** When the caller's signal fires while the fetch of attempt [a] is
    pending, the listeners abort the controller of that attempt, after
    those of the attempts before it, and the call ends at once with the
    error "Request cancelled by user"; no sleep and no further attempt
    follow, whatever retries remain.  That error differs from the one of a
    timeout, and from the error of every network failure whose own message
    is another one. *)
Lemma cancellation_while_pending M B req world a lastError :
  a <= M ->
  caller_aborts_in_flight (world a) = true ->
  trace (request_loop M B req world a (Some false) lastError)
    = EvFetch a req :: listeners_run a /\
  outcome (request_loop M B req world a (Some false) lastError)
    = Thrown (newHttpError 0 "Request cancelled by user" None) /\
  newHttpError 0 "Request cancelled by user" None
    <> newHttpError 0 "Request timeout after 180 seconds" None /\
  (forall M' B' a' sig' name msg,
      String.eqb name "AbortError" = false ->
      msg <> Some "Request cancelled by user" ->
      step_error (on_rejected M' B' a' sig' name msg)
        <> Some (newHttpError 0 "Request cancelled by user" None)).
Proof.
  intros Hle Hf.
  rewrite request_loop_unfold, (proj2 (Z.leb_le a M) Hle).
  unfold attempt_body, await_fetch. rewrite Hf.
  cbn [listener_runs negb andb abortError it_step it_aborted fire orb].
  unfold on_rejected. cbn [String.eqb Ascii.eqb Bool.eqb aborted].
  cbn [emit emit_abort emits abort_events ended trace outcome]. rewrite app_nil_r.
  split; [reflexivity|]. split; [reflexivity|]. split; [discriminate|].
  intros M' B' a' sig' name msg Hn Hm. rewrite Hn.
  assert (Hmsg : default "Network error" (Js.or_else msg (Some "Network error"))
                 <> "Request cancelled by user").
  { destruct msg as [[|c m]|]; cbn; [discriminate| |discriminate].
    intros E. apply Hm. by rewrite E. }
  destruct (a' <? M'); cbn; intros [= E]; by apply Hmsg.
Qed.

Example cancellation_while_pending_sample :
  trace (request example_config "/x" options_with_signal cancelled_first)
    = [EvFetch 0 (build_fetch example_config "/x" options_with_signal);
       EvAbort 0 ByCaller] /\
  outcome (request example_config "/x" options_with_signal cancelled_first)
    = Thrown (newHttpError 0 "Request cancelled by user" None).
Proof.
  destruct (cancellation_while_pending MAX_RETRIES BASE_DELAY
              (build_fetch example_config "/x" options_with_signal)
              cancelled_first 0 None) as (Ht & Ho & _); [done|reflexivity|].
  by split.
Qed.

(** C5, at the failing input: the caller's signal fires while the body
    of the 503 response of the first attempt is read.  The controller is
    aborted, but the call goes on: it sleeps, makes a second attempt with
    the signal already aborted, and returns the payload of that attempt;
    no "cancelled" error is surfaced. *)
Lemma cancellation_in_body_is_retried :
  caller_aborts_in_body (cancelled_in_body 0) = true /\
  signal options_with_signal = Some false /\
  trace (request example_config "/x" options_with_signal cancelled_in_body)
    = [EvFetch 0 (build_fetch example_config "/x" options_with_signal);
       EvAbort 0 ByCaller;
       EvSleep (Js.Finite 1000);
       EvFetch 1 (build_fetch example_config "/x" options_with_signal)] /\
  outcome (request example_config "/x" options_with_signal cancelled_in_body)
    = Returned (PText "body").
Proof. vm_compute. repeat split; reflexivity. Qed.

(** The same signal, fired while the body of a successful response is
    read, is swallowed as well: the call returns [null]. *)
Lemma cancellation_in_body_returns_null :
  let world := fun _ : Z =>
    {| caller_aborts_in_flight := false; settle := Resolves (text_response 200 None);
       caller_aborts_in_body := true; caller_aborts_in_backoff := false |} in
  trace (request example_config "/x" options_with_signal world)
    = [EvFetch 0 (build_fetch example_config "/x" options_with_signal);
       EvAbort 0 ByCaller] /\
  outcome (request example_config "/x" options_with_signal world) = Returned PNull.
Proof. vm_compute. repeat split; reflexivity. Qed.




(** The sleep after a rate-limited attempt with the retry-after value 7
    lasts 7 seconds; an earlier listener is still on the signal when the
    caller cancels during the second attempt, and aborts the controller
    of the first attempt before the one in flight. *)
Example retry_after_then_cancelled :
  let world := fun i : Z =>
    {| caller_aborts_in_flight := i =? 1;
       settle := Resolves (text_response 429 (Some "7"));
       caller_aborts_in_body := false; caller_aborts_in_backoff := false |} in
  trace (request example_config "/x" options_with_signal world)
    = [EvFetch 0 (build_fetch example_config "/x" options_with_signal);
       EvSleep (Js.Finite 7000);
       EvFetch 1 (build_fetch example_config "/x" options_with_signal);
       EvAbort 0 ByCaller; EvAbort 1 ByCaller] /\
  waits (trace (request example_config "/x" options_with_signal world)) = [7000] /\
  outcome (request example_config "/x" options_with_signal world)
    = Thrown (newHttpError 0 "Request cancelled by user" None).
Proof. vm_compute. repeat split; reflexivity. Qed.

End DispatcherClaims.

(** ** The ambient overlay, read from one call chain *)

Module AuthContextFacts.
Import AuthContext.

(** Inside [runWithAuthOverride] the overlay read is the one installed. *)
Lemma overlay_inside_run (override : option AuthOverride) :
  runWithAuthOverride override getAuthOverride = override.
Proof. reflexivity. Qed.

(** Outside every [runWithAuthOverride] there is no overlay. *)
Lemma overlay_outside_run : getAuthOverride None = None.
Proof. reflexivity. Qed.

(** Nested scopes: the innermost overlay is the one read. *)
Lemma overlay_innermost (outer inner : option AuthOverride) :
  runWithAuthOverride outer (fun _ => runWithAuthOverride inner getAuthOverride) = inner.
Proof. reflexivity. Qed.

End AuthContextFacts.

(** ** The gateway front door *)

Module GatewayClaims.
Import AuthContext Gateway Observations Scenarios.

(** C10: a request whose URL has the path /health is answered with
    status 200 and the body {status: ok, version}, whatever its headers
    and whether or not authentication is required; the registry is left
    as it was, no session is created and nothing is handled. *)
Theorem health_is_open (REQUIRE_AUTH : bool) (MCP_PATH VERSION : string)
    (url_pathname : string -> string -> option string)
    (now_created now : Z) (handler : Handler) (req : IncomingMessage)
    (registry : gmap string SessionEntry) :
  Js.truthy_opt (url req) = true ->
  url_pathname (default "" (url req)) (base_of req) = Some "/health" ->
  listener REQUIRE_AUTH MCP_PATH VERSION url_pathname now_created now handler req registry
  = {| reply := Json 200 [("status", "ok"); ("version", VERSION)];
       sessions := registry; scope := None; created := false |}.
Proof.
  intros Hurl Hpath. unfold listener. rewrite Hurl, Hpath. reflexivity.
Qed.

Lemma health_is_open_witness :
  Js.truthy_opt (url health_request) = true /\
  target_path (default "" (url health_request)) (base_of health_request) = Some "/health" /\
  listener true "/mcp" "0.4.42" target_path 0 1 plain_handler health_request ∅
  = {| reply := Json 200 [("status", "ok"); ("version", "0.4.42")];
       sessions := ∅; scope := None; created := false |}.
Proof.
  split; [reflexivity|]. split; [reflexivity|].
  apply (health_is_open true "/mcp" "0.4.42" target_path 0 1 plain_handler
           health_request ∅); reflexivity.
Defined.

(** C8, as the code has it: a request whose session identifier is not in
    the registry is rejected before anything is handled, the registry is
    left as it was and no session is created; the rejection is "unknown
    session" (404) unless authentication is required and the request
    presents no credential, in which case it is "unauthorized" (401). *)
Theorem unknown_session_rejected (REQUIRE_AUTH : bool) (now_created now : Z)
    (handler : Handler) (req : IncomingMessage)
    (registry : gmap string SessionEntry) (sid : string) :
  normalizeHeaderValue (headers req !! "mcp-session-id") = Some sid ->
  Js.truthy sid = true ->
  registry !! sid = None ->
  handleMcpRequest REQUIRE_AUTH now_created now handler req registry
  = {| reply := if REQUIRE_AUTH && negb (Js.truthy_opt (presented_credential req))
                then unauthorized else unknown_session;
       sessions := registry; scope := None; created := false |}.
Proof.
  intros Hsid Ht Hnone. unfold handleMcpRequest, presented_credential.
  rewrite Hsid. cbn [Js.truthy_opt from_option id]. rewrite Ht, Hnone.
  destruct (REQUIRE_AUTH && _); [reflexivity|].
  rewrite bool_decide_eq_false_2 by (intros [? ?]; discriminate).
  reflexivity.
Qed.

Lemma unknown_session_rejected_witness :
  normalizeHeaderValue (headers stale_request !! "mcp-session-id") = Some "s1" /\
  Js.truthy "s1" = true /\
  (∅ : gmap string SessionEntry) !! "s1" = None /\
  handleMcpRequest false 0 1 plain_handler stale_request ∅
  = {| reply := unknown_session; sessions := ∅; scope := None; created := false |}.
Proof.
  split; [reflexivity|]. split; [reflexivity|]. split; [reflexivity|].
  apply (unknown_session_rejected false 0 1 plain_handler stale_request ∅ "s1");
    reflexivity.
Defined.

(** C8, counterexample: with authentication required, a request that
    names an unknown session and presents no credential is answered
    "unauthorized", not "unknown session". *)
Lemma unknown_session_gets_401 :
  (∅ : gmap string SessionEntry) !! "s1" = None /\
  reply (handleMcpRequest true 0 1 plain_handler stale_request ∅) = unauthorized /\
  reply (handleMcpRequest true 0 1 plain_handler stale_request ∅) <> unknown_session.
Proof. split; [reflexivity|]. split; [reflexivity|]. vm_compute. discriminate. Qed.

Example looksLikeJwt_samples :
  looksLikeJwt "aaa.bbb.ccc" = true /\ looksLikeJwt "aaa.bbb" = false /\
  looksLikeJwt "aaa..ccc" = false /\ looksLikeJwt "a.b.c.d" = false.
Proof. repeat split; reflexivity. Qed.

Example bearerToken_samples :
  bearerToken (Some "Bearer abc") = Some "abc" /\
  bearerToken (Some "bearer  a b ") = Some "a b" /\
  bearerToken (Some "Basic abc") = None /\
  bearerToken (Some "Bearer") = None /\
  bearerToken None = None.
Proof. repeat split; reflexivity. Qed.

(** A bearer token made of a no-break space is trimmed to the empty
    string: the request presents no credential and, with authentication
    required, is answered "unauthorized" even on an unknown session. *)
Example bearer_no_break_space :
  let req := {| url := Some "/mcp"; req_method := Some "POST";
                headers := {[ "mcp-session-id" := HStr "s1";
                              "authorization" :=
                                HStr ("Bearer " ++ String (ascii_of_nat 160) "") ]} |} in
  bearerToken (Some ("Bearer " ++ String (ascii_of_nat 160) "")) = Some "" /\
  presented_credential req = None /\
  reply (handleMcpRequest true 0 1 plain_handler req ∅) = unauthorized.
Proof. vm_compute. repeat split; reflexivity. Qed.

(** The identity-token header wins over the API-key header, which wins
    over a bearer authorization header. *)
Example extract_precedence :
  let req hs := {| url := Some "/mcp"; req_method := Some "POST"; headers := hs |} in
  extractAuthOverride
    (req {[ "x-contextstream-jwt" := HStr "j"; "x-api-key" := HStr "k";
            "authorization" := HStr "Bearer t" ]}) None
  = {| override := Some {| apiKey := None; jwt := Some "j"; workspaceId := None;
                           projectId := None |};
       tokenType := Some jwt_token |} /\
  extractAuthOverride
    (req {[ "x-api-key" := HStr "k"; "authorization" := HStr "Bearer t" ]}) None
  = {| override := Some {| apiKey := Some "k"; jwt := None; workspaceId := None;
                           projectId := None |};
       tokenType := Some api_key |} /\
  extractAuthOverride
    (req {[ "authorization" := HStr "Bearer a.b.c"; "x-project-id" := HStr "p" ]}) None
  = {| override := Some {| apiKey := None; jwt := Some "a.b.c"; workspaceId := None;
                           projectId := Some "p" |};
       tokenType := Some jwt_token |} /\
  extractAuthOverride (req ∅) (Some prior_overlay)
  = {| override := Some prior_overlay; tokenType := None |}.
Proof. repeat split; reflexivity. Qed.

Lemma or_else_truthy_l a b : Js.truthy_opt a = true -> Js.or_else a b = a.
Proof. unfold Js.or_else. by intros ->. Qed.

Lemma or_else_falsy_l a b : Js.truthy_opt a = false -> Js.or_else a b = b.
Proof. unfold Js.or_else. by intros ->. Qed.

(** Without a credential of its own, a request with scope headers
    yields the overlay of these scopes alone, whatever the fallback. *)
Lemma extract_scope_only req fallback :
  Js.truthy_opt (presented_credential req) = false ->
  Js.truthy_opt (scope_workspace req) || Js.truthy_opt (scope_project req) = true ->
  extractAuthOverride req fallback
  = {| override := Some (scope_only req); tokenType := None |}.
Proof.
  unfold presented_credential, extractAuthOverride, scope_only, scope_workspace,
    scope_project.
  set (j := normalizeHeaderValue (headers req !! "x-contextstream-jwt")).
  set (k := Js.or_else (normalizeHeaderValue (headers req !! "x-api-key"))
              (normalizeHeaderValue (headers req !! "x-contextstream-api-key"))).
  set (t := bearerToken (normalizeHeaderValue (headers req !! "authorization"))).
  destruct (Js.truthy_opt j) eqn:Hj.
  { cbn [override AuthContext.jwt AuthContext.apiKey].
    rewrite (or_else_truthy_l _ _ Hj), Hj. discriminate. }
  destruct (Js.truthy_opt k) eqn:Hk.
  { cbn [override AuthContext.jwt AuthContext.apiKey].
    rewrite (or_else_falsy_l None k eq_refl), Hk. discriminate. }
  destruct (Js.truthy_opt t) eqn:Ht.
  { destruct (looksLikeJwt _); cbn [override AuthContext.jwt AuthContext.apiKey].
    - rewrite (or_else_truthy_l _ _ Ht), Ht. discriminate.
    - rewrite (or_else_falsy_l None t eq_refl), Ht. discriminate. }
  intros _ ->. reflexivity.
Qed.

(** C2, as the code has it: for a request that presents scope headers
    and no credential, on a session with a recorded overlay, the overlay
    extracted is the one of the new scopes alone; the recorded overlay is
    not merged into it.  When authentication is required the request is
    rejected as unauthorized and the session keeps its recorded overlay;
    otherwise the request is handled in the scope-only overlay, which
    replaces the recorded one on the session. *)
Theorem scope_only_request (REQUIRE_AUTH : bool) (now_created now : Z)
    (handler : Handler) (req : IncomingMessage)
    (registry : gmap string SessionEntry) (sid : string) (entry : SessionEntry) :
  normalizeHeaderValue (headers req !! "mcp-session-id") = Some sid ->
  Js.truthy sid = true ->
  registry !! sid = Some entry ->
  Js.truthy_opt (presented_credential req) = false ->
  Js.truthy_opt (scope_workspace req) || Js.truthy_opt (scope_project req) = true ->
  extractAuthOverride req (authOverride entry)
    = {| override := Some (scope_only req); tokenType := None |} /\
  handleMcpRequest REQUIRE_AUTH now_created now handler req registry
  = if REQUIRE_AUTH
    then {| reply := unauthorized; sessions := registry; scope := None; created := false |}
    else
      let entry' := {| authOverride := Some (scope_only req);
                       createdAt := createdAt entry; lastSeenAt := now;
                       transport_sessionId := transport_sessionId entry |} in
      let h := handler (Some (Some (scope_only req))) req None entry' in
      {| reply := match h_throws h with Some msg => Raised msg | None => Delegated end;
         sessions := foldr delete (<[sid := entry']> registry) (h_closed h);
         scope := Some (Some (scope_only req)); created := false |}.
Proof.
  intros Hsid Ht Hentry Hcred Hscope.
  pose proof (extract_scope_only req (authOverride entry) Hcred Hscope) as Hex.
  split; [exact Hex|].
  unfold handleMcpRequest. rewrite Hsid. cbn [Js.truthy_opt from_option id].
  rewrite Ht, Hentry, Hex. cbn [override tokenType].
  cbn [scope_only AuthContext.jwt AuthContext.apiKey Js.or_else Js.truthy_opt negb].
  rewrite andb_true_r.
  destruct REQUIRE_AUTH; [reflexivity|].
  rewrite bool_decide_eq_true_2 by eauto.
  cbn [andb negb from_option id authOverride createdAt transport_sessionId].
  unfold runWithAuthOverride.
  destruct (h_throws _); reflexivity.
Qed.

Lemma scope_only_request_witness :
  normalizeHeaderValue (headers scope_request !! "mcp-session-id") = Some "s1" /\
  Js.truthy "s1" = true /\
  ({[ "s1" := known_session ]} : gmap string SessionEntry) !! "s1" = Some known_session /\
  Js.truthy_opt (presented_credential scope_request) = false /\
  Js.truthy_opt (scope_workspace scope_request)
    || Js.truthy_opt (scope_project scope_request) = true /\
  extractAuthOverride scope_request (authOverride known_session)
    = {| override := Some (scope_only scope_request); tokenType := None |}.
Proof.
  split; [reflexivity|]. split; [reflexivity|]. split; [reflexivity|].
  split; [reflexivity|]. split; [reflexivity|].
  apply (scope_only_request true 0 5 plain_handler scope_request
           {[ "s1" := known_session ]} "s1" known_session); reflexivity.
Defined.

(** C2, counterexample: a session recorded with the key key-1 and the
    workspace w1 receives a request with the workspace header w2 and no
    credential.  The overlay keeping the key with the new workspace is
    neither used nor recorded: with authentication required the request
    is rejected and nothing is handled; without, the overlay used and
    recorded has the workspace w2 and no credential. *)
Lemma scope_only_drops_credential :
  let merged := {| apiKey := Some "key-1"; jwt := None; workspaceId := Some "w2";
                   projectId := None |} in
  let registry : gmap string SessionEntry := {[ "s1" := known_session ]} in
  let strict := handleMcpRequest true 0 5 plain_handler scope_request registry in
  let lax := handleMcpRequest false 0 5 plain_handler scope_request registry in
  reply strict = unauthorized /\ scope strict = None /\
  scope lax <> Some (Some merged) /\
  (authOverride <$> sessions lax !! "s1") <> Some (Some merged) /\
  scope lax = Some (Some {| apiKey := None; jwt := None; workspaceId := Some "w2";
                            projectId := None |}).
Proof.
  split; [reflexivity|]. split; [reflexivity|].
  split; [vm_compute; discriminate|].
  split; [vm_compute; discriminate|]. reflexivity.
Qed.

End GatewayClaims.


(** ** More on the dispatcher *)

Module DispatcherCoverage.
Import Http Observations Coverage Scenarios HttpFacts.

Lemma statusToCode_mapped st :
  statusToCode st <> UNKNOWN_ERROR -> In st mapped_statuses.
Proof.
  intros H. destruct st as [|p|p]; [by left| |by destruct H].
  do 10 (destruct p as [p|p|];
         try (exfalso; apply H; reflexivity);
         try (vm_compute; tauto)).
Qed.

(** X1: two statuses classified to the same kind, other than the
    fallback kind, are the same status: each mapped status has a kind of
    its own. *)
Theorem statusToCode_injective a b :
  statusToCode a <> UNKNOWN_ERROR ->
  statusToCode a = statusToCode b ->
  a = b.
Proof.
  intros Ha Hab.
  assert (Hb : statusToCode b <> UNKNOWN_ERROR) by (by rewrite <- Hab).
  apply statusToCode_mapped in Ha, Hb. revert Hab.
  unfold mapped_statuses in *. cbn [In] in Ha, Hb.
  repeat (destruct Ha as [<-|Ha]; [
    repeat (destruct Hb as [<-|Hb]; [vm_compute; first [reflexivity | discriminate]|]);
    destruct Hb|]).
  destruct Ha.
Qed.

Lemma statusToCode_injective_witness :
  statusToCode 404 <> UNKNOWN_ERROR /\ statusToCode 404 = statusToCode 404 /\ 404 = 404.
Proof.
  split; [discriminate|]. split; [reflexivity|].
  apply (statusToCode_injective 404 404); [discriminate|reflexivity].
Defined.

Lemma dropTrailingSlash_app_slash s : Js.dropTrailingSlash (s ++ "/") = s.
Proof.
  induction s as [|c s IH]; [reflexivity|].
  change (String c s ++ "/") with (String c (s ++ "/")).
  destruct (s ++ "/") as [|a t] eqn:E.
  - destruct s; discriminate.
  - change (Js.dropTrailingSlash (String c (String a t)))
      with (String c (Js.dropTrailingSlash (String a t))).
    by rewrite IH.
Qed.

Lemma dropTrailingSlash_id s :
  (forall t, s <> t ++ "/") -> Js.dropTrailingSlash s = s.
Proof.
  induction s as [|c s IH]; [reflexivity|]. intros H.
  cbn [Js.dropTrailingSlash]. destruct s as [|c' s'].
  - destruct (Ascii.eqb_spec c "/"%char) as [->|]; [|reflexivity].
    by destruct (H "").
  - f_equal. apply IH. intros t E. apply (H (String c t)). cbn. by rewrite E.
Qed.

(** X2: the URL of a call does not depend on whether the configured API
    URL ends with a slash: one trailing slash is dropped before the path,
    prefixed with /api/v1 unless it starts with /api/, is appended. *)
Theorem build_url_trailing_slash config base path :
  (forall t, base <> t ++ "/") ->
  build_url (with_apiUrl (base ++ "/") config) path
    = build_url (with_apiUrl base config) path /\
  build_url (with_apiUrl base config) path
    = base ++ (if Js.startsWith "/api/" path then path else "/api/v1" ++ path).
Proof.
  intros H. unfold build_url, with_apiUrl. cbn [apiUrl].
  by rewrite dropTrailingSlash_app_slash, dropTrailingSlash_id.
Qed.

Lemma build_url_trailing_slash_witness :
  (forall t, "https://api.example.com" <> t ++ "/") /\
  build_url (with_apiUrl ("https://api.example.com" ++ "/") example_config) "/search"
    = "https://api.example.com/api/v1/search".
Proof.
  assert (H : forall t, "https://api.example.com" <> t ++ "/").
  { intros t E. do 23 (destruct t as [|? t]; [discriminate|injection E as _ E]).
    destruct t; discriminate. }
  split; [exact H|].
  destruct (build_url_trailing_slash example_config "https://api.example.com"
              "/search" H) as [-> ->]. reflexivity.
Defined.











(** X5: with a negative number of retries the loop body never runs: the
    call makes no fetch at all and throws the network error "Request
    failed after retries". *)
Theorem negative_retries_no_attempt config path options world m :
  retries options = Some m ->
  m < 0 ->
  request config path options world
  = {| outcome := Thrown (newHttpError 0 "Request failed after retries" None);
       trace := [] |}.
Proof.
  intros Hr Hm. unfold request. rewrite Hr. cbn [from_option id].
  rewrite request_loop_unfold. by rewrite (proj2 (Z.leb_gt 0 m)) by lia.
Qed.

Lemma negative_retries_no_attempt_witness :
  request example_config "/x" (with_signal None
      {| method := None; opt_body := None; signal := None; retries := Some (-1);
         retryDelay := None |}) (always (text_response 200 None))
  = {| outcome := Thrown (newHttpError 0 "Request failed after retries" None);
       trace := [] |}.
Proof.
  apply (negative_retries_no_attempt example_config "/x" _ _ (-1)); [reflexivity|lia].
Defined.

(** One iteration under a signal that is already aborted, against the
    same iteration without a signal. *)
Lemma attempt_body_aborted_signal M B a env :
  it_aborted (attempt_body M B a (Some true) env)
    = it_aborted (attempt_body M B a None env) /\
  it_signal (attempt_body M B a (Some true) env) = Some true /\
  it_signal (attempt_body M B a None env) = None /\
  (it_step (attempt_body M B a (Some true) env) = it_step (attempt_body M B a None env) \/
   (it_step (attempt_body M B a (Some true) env) = Stop (Thrown cancelled_error) /\
    it_step (attempt_body M B a None env) = Stop (Thrown timeout_error))).
Proof.
  unfold attempt_body, await_fetch, await_body. cbn [listener_runs negb andb fire orb].
  destruct (settle env) as [r|name msg|]; cbn [fst snd it_aborted it_signal it_step].
  - repeat split. by left.
  - repeat split. unfold on_rejected.
    destruct (String.eqb name "AbortError"); [by right|by left].
  - repeat split. by right.
Qed.

Lemma request_loop_aborted_signal (n : nat) :
  forall M B req world a lastError,
    Z.to_nat (M + 1 - a) = n ->
    trace (request_loop M B req world a (Some true) lastError)
      = trace (request_loop M B req world a None lastError) /\
    (outcome (request_loop M B req world a (Some true) lastError)
       = outcome (request_loop M B req world a None lastError) \/
     (outcome (request_loop M B req world a (Some true) lastError) = Thrown cancelled_error /\
      outcome (request_loop M B req world a None lastError) = Thrown timeout_error)).
Proof.
  induction n as [|n IH]; intros M B req world a lastError Hn.
  - rewrite !request_loop_unfold, (proj2 (Z.leb_gt a M)) by lia. split; [done|by left].
  - rewrite !request_loop_unfold, (proj2 (Z.leb_le a M)) by lia.
    destruct (attempt_body_aborted_signal M B a (world a)) as (-> & -> & -> & Hstep).
    destruct Hstep as [->|[-> ->]].
    + destruct (it_step (attempt_body M B a None (world a))) as [o|e d] eqn:Hs.
      * split; [done|by left].
      * cbn [fire orb]. unfold backoff_aborts. cbn [listener_runs negb andb].
        destruct (IH M B req world (a + 1) (Some e)) as [Ht Ho].
        { pose proof (continue_budget _ _ _ _ _ _ _ Hs). lia. }
        rewrite !outcome_emit, !outcome_emit_abort, !outcome_emit, !outcome_emits.
        split; [|exact Ho].
        cbn [emit emit_abort emits trace app]. by rewrite Ht.
    + split; [done|by right].
Qed.

(** X6: a signal that is already aborted when [request] is called stops
    nothing: the call makes the same fetches, controller aborts and sleeps
    as without a signal and ends with the same outcome, except that a
    timeout is then reported as "Request cancelled by user". *)
Theorem aborted_signal_is_ignored config path options world :
  trace (request config path (with_signal (Some true) options) world)
    = trace (request config path (with_signal None options) world) /\
  (outcome (request config path (with_signal (Some true) options) world)
     = outcome (request config path (with_signal None options) world) \/
   (outcome (request config path (with_signal (Some true) options) world)
      = Thrown cancelled_error /\
    outcome (request config path (with_signal None options) world)
      = Thrown timeout_error)).
Proof.
  unfold request, with_signal. cbn [retries retryDelay signal].
  exact (request_loop_aborted_signal _ _ _ _ world 0 None eq_refl).
Qed.

Lemma parseInt10_not_a_number c s :
  Js.isWhite c = false -> Js.digitValue c = None ->
  c <> "-"%char -> c <> "+"%char ->
  Js.parseInt10 (String c s) = Js.NaN.
Proof.
  destruct c as [[] [] [] [] [] [] [] []];
    intros Hw Hd Hm Hp; try discriminate; try (by destruct Hm); try (by destruct Hp);
    reflexivity.
Qed.

(** X7: a retry-after value whose first character is neither white space
    nor a sign nor a digit, as in an HTTP date, is not honoured and does
    not fall back to the exponential delay either: [parseInt] makes it
    NaN, the delay handed to [sleep] is NaN, and the sleep lasts 1
    millisecond. *)
Theorem unparsable_retry_after M B req world a sig lastError e d r c s :
  a <= M ->
  it_step (attempt_body M B a sig (world a)) = Continue e d ->
  settle (world a) = Resolves r ->
  resp_retryAfter r = Some (String c s) ->
  Js.isWhite c = false -> Js.digitValue c = None ->
  c <> "-"%char -> c <> "+"%char ->
  d = Js.NaN /\ sleep d = 1 /\
  exists rest,
    sleeps (trace (request_loop M B req world a sig lastError)) = Js.NaN :: rest /\
    waits (trace (request_loop M B req world a sig lastError)) = 1 :: (sleep <$> rest).
Proof.
  intros Hle Hs Hr Hra Hw Hd Hm Hp.
  assert (d = Js.NaN) as ->.
  { destruct (step_continue_inv _ _ _ _ _ _ _ Hs) as (_ & Hcase).
    destruct Hcase as [(r' & p & Hr' & _ & _ & _ & _ & ->)|(name & msg & Hr' & _)];
      [|congruence].
    assert (r' = r) as -> by congruence.
    unfold response_delay. rewrite Hra. cbn [Js.truthy_opt Js.truthy from_option id].
    by rewrite parseInt10_not_a_number. }
  split; [done|]. split; [done|].
  unfold waits.
  destruct (request_loop_continue M B req world a sig lastError e Js.NaN Hle Hs)
    as (_ & _ & ->). eauto.
Qed.

Lemma unparsable_retry_after_witness :
  exists rest,
    sleeps (trace (request_loop 3 1000 (build_fetch example_config "/x" plain_options)
                     (always (text_response 503 (Some "Wed, 21 Oct 2015 07:28:00 GMT")))
                     0 None None)) = Js.NaN :: rest /\
    waits (trace (request_loop 3 1000 (build_fetch example_config "/x" plain_options)
                    (always (text_response 503 (Some "Wed, 21 Oct 2015 07:28:00 GMT")))
                    0 None None)) = 1 :: (sleep <$> rest).
Proof.
  destruct (unparsable_retry_after 3 1000 (build_fetch example_config "/x" plain_options)
           (always (text_response 503 (Some "Wed, 21 Oct 2015 07:28:00 GMT")))
           0 None None
           (response_error (text_response 503 (Some "Wed, 21 Oct 2015 07:28:00 GMT")))
           Js.NaN (text_response 503 (Some "Wed, 21 Oct 2015 07:28:00 GMT"))
           "W"%char "ed, 21 Oct 2015 07:28:00 GMT") as (_ & _ & H);
    try reflexivity; try discriminate; try lia.
  exact H.
Defined.

(** Where the error of a stopping iteration comes from. *)
Lemma step_thrown_origin M B a sig env e :
  it_step (attempt_body M B a sig env) = Stop (Thrown e) ->
  status e = 0 \/
  exists r, settle env = Resolves r /\ resp_ok r = false /\ status e = resp_status r.
Proof.
  rewrite attempt_body_step. unfold on_rejected, on_response.
  destruct (fst (await_fetch sig env)) as [r|name msg] eqn:Hf.
  - destruct (resp_ok r) eqn:Hok; cbn [negb]; [discriminate|].
    destruct (_ && _); [discriminate|]. intros [= <-]. right. exists r.
    split; [by apply (await_fetch_fulfilled sig)|done].
  - destruct (String.eqb name "AbortError").
    + destruct (aborted _); intros [= <-]; by left.
    + destruct (a <? M); [discriminate|]. intros [= <-]. by left.
Qed.

Lemma request_loop_thrown_origin (n : nat) :
  forall M B req world a sig lastError e,
    Z.to_nat (M + 1 - a) = S n ->
    outcome (request_loop M B req world a sig lastError) = Thrown e ->
    status e = 0 \/
    exists r,
      settle (world (a + Z.of_nat (length (fetch_attempts
                 (trace (request_loop M B req world a sig lastError)))) - 1)) = Resolves r /\
      resp_ok r = false /\ status e = resp_status r.
Proof.
  induction n as [|n IH]; intros M B req world a sig lastError e Hn.
  - destruct (it_step (attempt_body M B a sig (world a))) as [o|e' d] eqn:Hs.
    + destruct (request_loop_stop M B req world a sig lastError o ltac:(lia) Hs)
        as (-> & -> & _).
      intros ->. replace (a + Z.of_nat (length [a]) - 1) with a by (cbn; lia).
      by eapply step_thrown_origin.
    + pose proof (continue_budget _ _ _ _ _ _ _ Hs). lia.
  - destruct (it_step (attempt_body M B a sig (world a))) as [o|e' d] eqn:Hs.
    + destruct (request_loop_stop M B req world a sig lastError o ltac:(lia) Hs)
        as (-> & -> & _).
      intros ->. replace (a + Z.of_nat (length [a]) - 1) with a by (cbn; lia).
      by eapply step_thrown_origin.
    + destruct (request_loop_continue M B req world a sig lastError e' d ltac:(lia) Hs)
        as (-> & -> & _).
      intros Ho. destruct (IH M B req world (a + 1) _ _ e ltac:(lia) Ho) as [?|(r & Hr & ?)];
        [by left|right].
      exists r. split; [|done]. rewrite <- Hr. apply (f_equal (fun i => settle (world i))).
      cbn [length]. lia.
Qed.

(** X8: an error thrown with a status other than 0 reports the response
    of the last attempt made: that response is a failing one and the error
    has its status. *)
Theorem thrown_error_is_last_response config path options world e :
  outcome (request config path options world) = Thrown e ->
  status e <> 0 ->
  exists r,
    settle (world (Z.of_nat (length (fetch_attempts
              (trace (request config path options world)))) - 1)) = Resolves r /\
    resp_ok r = false /\ status e = resp_status r.
Proof.
  unfold request. intros Ho Hst.
  destruct (Z_le_gt_dec 0 (default MAX_RETRIES (retries options))) as [Hle|Hgt].
  - assert (Hn : Z.to_nat (default MAX_RETRIES (retries options) + 1 - 0)
                 = S (Z.to_nat (default MAX_RETRIES (retries options)))) by lia.
    destruct (request_loop_thrown_origin _ _ _ _ world 0 (signal options) None e Hn Ho)
      as [?|(r & Hr & ?)]; [done|].
    exists r. by rewrite Z.add_0_l in Hr.
  - rewrite request_loop_unfold, (proj2 (Z.leb_gt 0 _)) in Ho by lia.
    cbn in Ho. injection Ho as <-. by destruct Hst.
Qed.

Lemma thrown_error_is_last_response_witness :
  exists r,
    settle (always (text_response 422 None)
      (Z.of_nat (length (fetch_attempts (trace (request example_config "/x" plain_options
                                                 (always (text_response 422 None)))))) - 1))
      = Resolves r /\
    resp_ok r = false /\
    status (response_error (text_response 422 None)) = resp_status r.
Proof.
  apply (thrown_error_is_last_response example_config "/x" plain_options
           (always (text_response 422 None)) (response_error (text_response 422 None)));
    [reflexivity|vm_compute; discriminate].
Defined.

End DispatcherCoverage.


(** ** More on the gateway *)

Module GatewayCoverage.
Import AuthContext Gateway Observations Coverage Scenarios.

Lemma split_no_sep sep s : contains_char sep s = false -> Js.split sep s = [s].
Proof.
  induction s as [|a s IH]; [reflexivity|]. cbn [contains_char Js.split].
  destruct (Ascii.eqb a sep); [discriminate|]. cbn [orb]. intros H.
  by rewrite (IH H).
Qed.

Lemma split_app_sep sep a rest :
  contains_char sep a = false ->
  Js.split sep (a ++ String sep rest) = a :: Js.split sep rest.
Proof.
  induction a as [|c a IH]; intros H.
  - change ("" ++ String sep rest) with (String sep rest). cbn [Js.split].
    by rewrite Ascii.eqb_refl.
  - change (String c a ++ String sep rest) with (String c (a ++ String sep rest)).
    cbn [contains_char] in H. cbn [Js.split].
    destruct (Ascii.eqb c sep); [discriminate|]. cbn [orb] in H.
    by rewrite (IH H).
Qed.

(** Splitting and joining back gives the string; no part holds the separator. *)
Lemma split_join sep s :
  Js.join (String sep "") (Js.split sep s) = s /\
  Forall (fun p => contains_char sep p = false) (Js.split sep s) /\
  Js.split sep s <> [].
Proof.
  induction s as [|c s (IHj & IHf & IHn)]; [by repeat constructor|].
  cbn [Js.split]. destruct (Ascii.eqb_spec c sep) as [->|Hne].
  - split; [|split; [by constructor|done]].
    destruct (Js.split sep s) as [|p ps] eqn:E; [done|].
    unfold Js.join in *. cbn [String.concat] in *. by rewrite IHj.
  - destruct (Js.split sep s) as [|p ps] eqn:E; [done|].
    split; [|split; [|done]].
    + unfold Js.join in *. cbn [String.concat] in *.
      destruct ps; [by rewrite <- IHj|].
      change (String c p ++ String sep "" ++ String.concat (String sep "") (s0 :: ps))
        with (String c (p ++ String sep "" ++ String.concat (String sep "") (s0 :: ps))).
      by rewrite IHj.
    + inversion IHf as [|? ? Hp Hps]; subst. constructor; [|done].
      cbn [contains_char]. by rewrite (proj2 (Ascii.eqb_neq c sep) Hne).
Qed.

Lemma string_length_pos s : Nat.ltb 0 (String.length s) = true <-> s <> "".
Proof. destruct s; cbn; split; (done || discriminate). Qed.

(** X9: a token looks like a JWT exactly when it is made of three
    non-empty segments without dots, separated by two dots. *)
Theorem looksLikeJwt_spec token :
  looksLikeJwt token = true <->
  exists a b c, token = a ++ "." ++ b ++ "." ++ c /\ segment a /\ segment b /\ segment c.
Proof.
  unfold looksLikeJwt, segment. split.
  - intros H. apply andb_prop in H as [Hlen Hall].
    destruct (split_join "."%char token) as (Hj & Hf & _).
    destruct (Js.split "."%char token) as [|a [|b [|c [|d ps]]]]; try discriminate.
    cbn [forallb] in Hall.
    apply andb_prop in Hall as [Ha Hall]. apply andb_prop in Hall as [Hb Hall].
    apply andb_prop in Hall as [Hc _].
    apply string_length_pos in Ha, Hb, Hc.
    inversion Hf as [|? ? Fa Hf1]; subst. inversion Hf1 as [|? ? Fb Hf2]; subst.
    inversion Hf2 as [|? ? Fc _]; subst.
    exists a, b, c. split; [reflexivity|done].
  - intros (a & b & c & -> & [Ha Fa] & [Hb Fb] & [Hc Fc]).
    change (a ++ "." ++ b ++ "." ++ c) with (a ++ String "." (b ++ String "." c)).
    rewrite (split_app_sep _ _ _ Fa), (split_app_sep _ _ _ Fb), (split_no_sep _ _ Fc).
    cbn [length Nat.eqb forallb andb].
    by rewrite !(proj2 (string_length_pos _)).
Qed.

(** X10: the token type returned with an overlay names the one
    credential the overlay carries: with [jwt] the overlay has a JWT and
    no API key, with [api_key] an API key and no JWT; without a token type
    the overlay is the fallback, or holds scope values only. *)
Theorem extract_credential_consistent req fallback :
  match tokenType (extractAuthOverride req fallback) with
  | Some jwt_token =>
      exists o, override (extractAuthOverride req fallback) = Some o /\
                Js.truthy_opt (jwt o) = true /\ apiKey o = None
  | Some api_key =>
      exists o, override (extractAuthOverride req fallback) = Some o /\
                Js.truthy_opt (apiKey o) = true /\ jwt o = None
  | None =>
      override (extractAuthOverride req fallback) = fallback \/
      exists o, override (extractAuthOverride req fallback) = Some o /\
                apiKey o = None /\ jwt o = None /\
                Js.truthy_opt (workspaceId o) || Js.truthy_opt (projectId o) = true
  end.
Proof.
  unfold extractAuthOverride.
  destruct (Js.truthy_opt (normalizeHeaderValue (headers req !! "x-contextstream-jwt")))
    eqn:Hj; [cbn; eauto|].
  destruct (Js.truthy_opt (Js.or_else _ _)) eqn:Hk; [cbn; eauto|].
  destruct (Js.truthy_opt (bearerToken _)) eqn:Ht.
  { destruct (looksLikeJwt _); cbn; eauto. }
  destruct (_ || _) eqn:Hs; cbn; [right|by left]. eauto 6.
Qed.

Lemma or_else_of_truthy a b : Js.truthy_opt a = true -> Js.or_else a b = a.
Proof. unfold Js.or_else. by intros ->. Qed.

Lemma or_else_of_falsy a b : Js.truthy_opt a = false -> Js.or_else a b = b.
Proof. unfold Js.or_else. by intros ->. Qed.

(** The credential an overlay yields to [handleMcpRequest] is truthy
    exactly when the overlay carries one. *)
Lemma token_of_overlay o :
  Js.truthy_opt (Js.or_else (jwt o) (apiKey o)) = has_credential o.
Proof.
  unfold has_credential, Js.or_else.
  destruct (Js.truthy_opt (jwt o)) eqn:E; [by rewrite E|done].
Qed.

(** X11: when authentication is required, the transport handles a request
    only inside an overlay that carries a credential. *)
Theorem handler_runs_with_credential now_created now handler req registry ov :
  scope (handleMcpRequest true now_created now handler req registry) = Some ov ->
  exists o, ov = Some o /\ has_credential o = true.
Proof.
  unfold handleMcpRequest. cbn [andb].
  destruct (override (extractAuthOverride req _)) as [o|] eqn:Ho.
  - rewrite token_of_overlay. destruct (has_credential o) eqn:Hc; cbn [negb];
      [|discriminate].
    destruct (_ && _); [discriminate|].
    unfold runWithAuthOverride. destruct (h_throws _); cbn [scope];
      intros [= <-]; eauto.
  - cbn. discriminate.
Qed.

Lemma handler_runs_with_credential_witness :
  exists o,
    Some {| apiKey := Some "key-1"; jwt := None; workspaceId := None; projectId := None |}
      = Some o /\ has_credential o = true.
Proof.
  apply (handler_runs_with_credential 0 1 plain_handler keyed_request ∅). reflexivity.
Defined.

(** Without credential or scope headers, the overlay extracted is the fallback. *)
Lemma extract_fallback req fallback :
  Js.truthy_opt (presented_credential req) = false ->
  Js.truthy_opt (scope_workspace req) || Js.truthy_opt (scope_project req) = false ->
  extractAuthOverride req fallback = {| override := fallback; tokenType := None |}.
Proof.
  unfold presented_credential, extractAuthOverride, scope_workspace, scope_project.
  set (j := normalizeHeaderValue (headers req !! "x-contextstream-jwt")).
  set (k := Js.or_else (normalizeHeaderValue (headers req !! "x-api-key"))
              (normalizeHeaderValue (headers req !! "x-contextstream-api-key"))).
  set (t := bearerToken (normalizeHeaderValue (headers req !! "authorization"))).
  destruct (Js.truthy_opt j) eqn:Hj.
  { cbn [override AuthContext.jwt AuthContext.apiKey].
    rewrite (or_else_of_truthy _ _ Hj), Hj. discriminate. }
  destruct (Js.truthy_opt k) eqn:Hk.
  { cbn [override AuthContext.jwt AuthContext.apiKey].
    rewrite (or_else_of_falsy None k eq_refl), Hk. discriminate. }
  destruct (Js.truthy_opt t) eqn:Ht.
  { destruct (looksLikeJwt _); cbn [override AuthContext.jwt AuthContext.apiKey].
    - rewrite (or_else_of_truthy _ _ Ht), Ht. discriminate.
    - rewrite (or_else_of_falsy None t eq_refl), Ht. discriminate. }
  intros _ ->. reflexivity.
Qed.

(** X12: a request on a known session that presents neither a credential
    nor scope headers is handled inside the overlay recorded on the
    session, with no [auth] attached to the request; the session keeps
    that overlay and only its last-seen time changes. *)
Theorem follow_up_inherits_overlay (REQUIRE_AUTH : bool) (now_created now : Z)
    (handler : Handler) (req : IncomingMessage)
    (registry : gmap string SessionEntry) (sid : string) (entry : SessionEntry)
    (prior : AuthOverride) :
  normalizeHeaderValue (headers req !! "mcp-session-id") = Some sid ->
  Js.truthy sid = true ->
  registry !! sid = Some entry ->
  authOverride entry = Some prior ->
  has_credential prior = true ->
  Js.truthy_opt (presented_credential req) = false ->
  Js.truthy_opt (scope_workspace req) || Js.truthy_opt (scope_project req) = false ->
  handleMcpRequest REQUIRE_AUTH now_created now handler req registry
  = let entry' := {| authOverride := Some prior; createdAt := createdAt entry;
                     lastSeenAt := now;
                     transport_sessionId := transport_sessionId entry |} in
    let h := handler (Some (Some prior)) req None entry' in
    {| reply := match h_throws h with Some msg => Raised msg | None => Delegated end;
       sessions := foldr delete (<[sid := entry']> registry) (h_closed h);
       scope := Some (Some prior); created := false |}.
Proof.
  intros Hsid Ht Hentry Hprior Hcred Hnone Hscope.
  unfold handleMcpRequest. rewrite Hsid. cbn [Js.truthy_opt from_option id].
  rewrite Ht, Hentry, (extract_fallback req _ Hnone Hscope), Hprior.
  cbn [override tokenType]. rewrite token_of_overlay, Hcred.
  cbn [negb andb]. rewrite andb_false_r.
  rewrite bool_decide_eq_true_2 by eauto.
  cbn [negb andb from_option id authOverride createdAt transport_sessionId option_map].
  unfold runWithAuthOverride.
  destruct (h_throws _); reflexivity.
Qed.

Lemma follow_up_inherits_overlay_witness :
  scope (handleMcpRequest true 0 5 plain_handler bare_request {[ "s1" := known_session ]})
    = Some (Some prior_overlay) /\
  reply (handleMcpRequest true 0 5 plain_handler bare_request {[ "s1" := known_session ]})
    = Delegated.
Proof.
  rewrite (follow_up_inherits_overlay true 0 5 plain_handler bare_request
             {[ "s1" := known_session ]} "s1" known_session prior_overlay);
    try reflexivity.
  by split.
Defined.

Lemma lookup_foldr_delete_is_Some {A} (m : gmap string A) (l : list string) k :
  is_Some (foldr delete m l !! k) -> is_Some (m !! k).
Proof.
  induction l as [|x l IH]; [done|]. cbn [foldr].
  rewrite lookup_delete. case_decide; [by intros [? ?]|exact IH].
Qed.


(** X13: a request adds a session to the registry only when it created
    that session and its handling did not fail: a rejected request, a
    request on a known session and a request whose handling throws
    register nothing. *)
Theorem registry_grows_only_on_success (REQUIRE_AUTH : bool) (now_created now : Z)
    (handler : Handler) (req : IncomingMessage)
    (registry : gmap string SessionEntry) (k : string) :
  registry !! k = None ->
  is_Some (sessions (handleMcpRequest REQUIRE_AUTH now_created now handler req registry) !! k) ->
  reply (handleMcpRequest REQUIRE_AUTH now_created now handler req registry) = Delegated /\
  created (handleMcpRequest REQUIRE_AUTH now_created now handler req registry) = true.
Proof.
  intros Hk. unfold handleMcpRequest.
  set (sessionId := normalizeHeaderValue (headers req !! "mcp-session-id")).
  set (existing := if Js.truthy_opt sessionId then registry !! default "" sessionId else None).
  destruct (REQUIRE_AUTH && _); [cbn; rewrite Hk; by intros [? ?]|].
  destruct (Js.truthy_opt sessionId && _) eqn:Hunk; [cbn; rewrite Hk; by intros [? ?]|].
  unfold runWithAuthOverride.
  destruct existing as [e|] eqn:He.
  - assert (Hsid : registry !! default "" sessionId = Some e).
    { unfold existing in He. by destruct (Js.truthy_opt sessionId). }
    assert (Hne : default "" sessionId <> k) by congruence.
    rewrite bool_decide_eq_true_2 by eauto. cbn [negb andb].
    destruct (h_throws _); cbn [sessions]; intros H%lookup_foldr_delete_is_Some;
      rewrite lookup_insert_ne, Hk in H by done; by destruct H.
  - rewrite bool_decide_eq_false_2 by (intros [? ?]; discriminate). cbn [negb andb].
    destruct (h_throws _); cbn [sessions reply created].
    + intros H%lookup_foldr_delete_is_Some. rewrite Hk in H. by destruct H.
    + match goal with
      | |- is_Some ((if ?c then _ else _) !! _) -> _ => destruct c
      end; [done|].
      intros H%lookup_foldr_delete_is_Some. rewrite Hk in H. by destruct H.
Qed.

Lemma registry_grows_only_on_success_witness :
  (∅ : gmap string SessionEntry) !! "s9" = None /\
  reply (handleMcpRequest true 0 1 assigning_handler keyed_request ∅) = Delegated /\
  created (handleMcpRequest true 0 1 assigning_handler keyed_request ∅) = true.
Proof.
  split; [reflexivity|].
  apply (registry_grows_only_on_success true 0 1 assigning_handler keyed_request ∅ "s9");
    [reflexivity|]. vm_compute. eauto.
Defined.



(** The replies of the session handling. *)
Lemma handleMcpRequest_reply (REQUIRE_AUTH : bool) (now_created now : Z)
    (handler : Handler) (req : IncomingMessage) (registry : gmap string SessionEntry) :
  reply (handleMcpRequest REQUIRE_AUTH now_created now handler req registry) <> InvalidUrl /\
  reply (handleMcpRequest REQUIRE_AUTH now_created now handler req registry) <> HeadersSent.
Proof.
  unfold handleMcpRequest.
  destruct (REQUIRE_AUTH && _); [done|].
  destruct (Js.truthy_opt _ && _); [done|].
  unfold runWithAuthOverride. by destruct (h_throws _).
Qed.

(** X15: once the URL of a request is parsed, an error thrown by the
    session handling does not escape the listener as it is: the catch
    block answers it with status 500 and the message of the error, or
    "Internal server error" without one, when the head of the response
    was not written yet.  When the transport had written it before it
    failed, [writeJson] throws in the catch block and that exception
    escapes the listener; nothing else makes the listener reject. *)
Theorem listener_catch_block (REQUIRE_AUTH : bool) (MCP_PATH VERSION : string)
    (url_pathname : string -> string -> option string)
    (now_created now : Z) (handler : Handler) (req : IncomingMessage)
    (registry : gmap string SessionEntry) (pathname : string) :
  url_pathname (default "" (url req)) (base_of req) = Some pathname ->
  (forall err,
     reply (listener REQUIRE_AUTH MCP_PATH VERSION url_pathname now_created now handler
              req registry) <> Raised err) /\
  reply (listener REQUIRE_AUTH MCP_PATH VERSION url_pathname now_created now handler
           req registry) <> InvalidUrl /\
  (reply (listener REQUIRE_AUTH MCP_PATH VERSION url_pathname now_created now handler
            req registry) = HeadersSent <->
   Js.truthy_opt (url req) = true /\ pathname = MCP_PATH /\ MCP_PATH <> "/health" /\
   In (default "" (req_method req)) ["GET"; "POST"; "DELETE"] /\
   exists err,
     reply (handleMcpRequest REQUIRE_AUTH now_created now handler req registry)
       = Raised err /\
     rej_headersSent err = true) /\
  (forall err,
     Js.truthy_opt (url req) = true ->
     pathname = MCP_PATH -> MCP_PATH <> "/health" ->
     In (default "" (req_method req)) ["GET"; "POST"; "DELETE"] ->
     reply (handleMcpRequest REQUIRE_AUTH now_created now handler req registry)
       = Raised err ->
     rej_headersSent err = false ->
     reply (listener REQUIRE_AUTH MCP_PATH VERSION url_pathname now_created now handler
              req registry)
       = Json 500 [("error", default "Internal server error"
                               (Js.or_else (rej_message err)
                                  (Some "Internal server error")))]).
Proof.
  intros Hpath.
  destruct (handleMcpRequest_reply REQUIRE_AUTH now_created now handler req registry)
    as [Hnu Hnh].
  unfold listener. rewrite Hpath.
  destruct (Js.truthy_opt (url req)) eqn:Hurl; cbn [negb];
    [|split; [done|]; split; [done|]; split;
      [split; [done|by intros (? & _)]|by intros]].
  destruct (String.eqb_spec pathname "/health") as [->|Hh];
    [split; [done|]; split; [done|]; split;
     [split; [done|by intros (_ & <- & ? & _)]|by intros ? _ <- ?]|].
  destruct (String.eqb_spec pathname MCP_PATH) as [->|Hm]; cbn [negb];
    [|split; [done|]; split; [done|]; split;
      [split; [done|by intros (_ & ? & _)]|by intros]].
  destruct (existsb (String.eqb (default "" (req_method req))) ["GET"; "POST"; "DELETE"])
    eqn:Hex; cbn [negb].
  - assert (Hin : In (default "" (req_method req)) ["GET"; "POST"; "DELETE"]).
    { apply existsb_exists in Hex as (m & Hin & ->%String.eqb_eq). exact Hin. }
    destruct (reply (handleMcpRequest _ _ _ _ _ _)) as [st pl| |err| |] eqn:Hr;
      cbn [reply]; rewrite ?Hr; try done.
    + split; [done|]. split; [done|]. split; [|by intros].
      split; [done|by intros (_ & _ & _ & _ & ? & ? & _)].
    + split; [done|]. split; [done|]. split; [|by intros].
      split; [done|by intros (_ & _ & _ & _ & ? & ? & _)].
    + unfold writeJson. destruct (rej_headersSent err) eqn:Hs.
      * split; [done|]. split; [done|]. split.
        -- split; [|done]. intros _. repeat split; try done. by exists err.
        -- intros err' _ _ _ _ [= <-]. congruence.
      * split; [done|]. split; [done|]. split.
        -- split; [done|]. intros (_ & _ & _ & _ & err' & [= <-] & ?). congruence.
        -- by intros err' _ _ _ _ [= <-] _.
  - split; [done|]. split; [done|]. split.
    + split; [done|]. intros (_ & _ & _ & Hin & _).
      assert (Hex' : existsb (String.eqb (default "" (req_method req)))
                       ["GET"; "POST"; "DELETE"] = true); [|congruence].
      apply existsb_exists. eexists. split; [exact Hin|apply String.eqb_refl].
    + intros err _ _ _ Hin.
      assert (Hex' : existsb (String.eqb (default "" (req_method req)))
                       ["GET"; "POST"; "DELETE"] = true); [|congruence].
      apply existsb_exists. eexists. split; [exact Hin|apply String.eqb_refl].
Qed.

Lemma listener_catch_block_witness :
  reply (listener true "/mcp" "0.4.42" target_path 0 1 failing_handler keyed_request ∅)
    = Json 500 [("error", "boom")] /\
  reply (listener true "/mcp" "0.4.42" target_path 0 1 late_failing_handler
           keyed_request ∅)
    = HeadersSent.
Proof.
  split.
  - destruct (listener_catch_block true "/mcp" "0.4.42" target_path 0 1 failing_handler
                keyed_request ∅ "/mcp" eq_refl) as (_ & _ & _ & H).
    apply (H {| rej_message := Some "boom"; rej_headersSent := false |});
      try reflexivity; [discriminate|cbn; tauto].
  - destruct (listener_catch_block true "/mcp" "0.4.42" target_path 0 1
                late_failing_handler keyed_request ∅ "/mcp" eq_refl) as (_ & _ & H & _).
    apply H. repeat split; [discriminate|cbn; tauto|].
    by exists {| rej_message := Some "boom"; rej_headersSent := true |}.
Defined.

(** X16: the listener hands a request to the session handling, and so
    changes the registry or runs the transport, only when the path of the
    request is the MCP path, is not /health, and the method is GET, POST
    or DELETE. *)
Theorem listener_gate (REQUIRE_AUTH : bool) (MCP_PATH VERSION : string)
    (url_pathname : string -> string -> option string)
    (now_created now : Z) (handler : Handler) (req : IncomingMessage)
    (registry : gmap string SessionEntry) :
  sessions (listener REQUIRE_AUTH MCP_PATH VERSION url_pathname now_created now handler
              req registry) <> registry \/
  scope (listener REQUIRE_AUTH MCP_PATH VERSION url_pathname now_created now handler
           req registry) <> None ->
  url_pathname (default "" (url req)) (base_of req) = Some MCP_PATH /\
  MCP_PATH <> "/health" /\
  In (default "" (req_method req)) ["GET"; "POST"; "DELETE"].
Proof.
  unfold listener.
  destruct (negb (Js.truthy_opt (url req))); [intros [H|H]; by destruct H|].
  destruct (url_pathname _ _) as [pathname|]; [|intros [H|H]; by destruct H].
  destruct (String.eqb_spec pathname "/health") as [->|Hh];
    [intros [H|H]; by destruct H|].
  destruct (String.eqb_spec pathname MCP_PATH) as [->|Hm]; cbn [negb];
    [|intros [H|H]; by destruct H].
  destruct (existsb _ _) eqn:Hex; cbn [negb]; [|intros [H|H]; by destruct H].
  intros _. split; [done|]. split; [done|].
  apply existsb_exists in Hex as (m & Hin & ->%String.eqb_eq). exact Hin.
Qed.

Lemma listener_gate_witness :
  target_path (default "" (url keyed_request)) (base_of keyed_request) = Some "/mcp" /\
  "/mcp" <> "/health" /\
  In (default "" (req_method keyed_request)) ["GET"; "POST"; "DELETE"].
Proof.
  apply (listener_gate true "/mcp" "0.4.42" target_path 0 1 assigning_handler
           keyed_request ∅).
  left. vm_compute. discriminate.
Defined.

End GatewayCoverage.

(** ** Version, configuration, credentials and hooks *)

Module SupportCoverage.
Import Http Observations Coverage Scenarios HttpFacts.








Example getVersion_samples :
  Version.getVersion (Version.Loaded (Some " 0.4.42 ")) = "0.4.42" /\
  Version.getVersion (Version.Loaded (Some (String (ascii_of_nat 160) " "))) = "unknown" /\
  Version.getVersion (Version.Loaded None) = "unknown" /\
  Version.getVersion Version.RequireThrows = "unknown".
Proof. vm_compute. repeat split; reflexivity. Qed.

Section Versions.

Variable num : Type.
Variable Number : string -> num.
Variable zero : num.
Variable lt : num -> num -> bool.

Lemma compareLoop_opp parts1 parts2 steps :
  (forall x y, lt x y = true -> lt y x = false) ->
  forall i, Version.compareLoop num zero lt parts2 parts1 steps i
            = - Version.compareLoop num zero lt parts1 parts2 steps i.
Proof.
  intros Hasym. induction steps as [|steps IH]; intros i; [reflexivity|].
  cbn [Version.compareLoop].
  destruct (lt (nth i parts1 zero) (nth i parts2 zero)) eqn:H12.
  - by rewrite (Hasym _ _ H12).
  - destruct (lt (nth i parts2 zero) (nth i parts1 zero)); [reflexivity|apply IH].
Qed.

(** X18: swapping the two versions negates the result of the comparison,
    whatever the segments are, as long as [<] is asymmetric on the numbers
    they denote (as it is on JavaScript numbers, NaN included). *)
Theorem compareVersions_antisym v1 v2 :
  (forall x y, lt x y = true -> lt y x = false) ->
  Version.compareVersions num Number zero lt v2 v1
  = - Version.compareVersions num Number zero lt v1 v2.
Proof.
  intros Hasym. unfold Version.compareVersions.
  rewrite Nat.max_comm. by apply compareLoop_opp.
Qed.

Lemma compareLoop_older parts1 parts2 steps :
  forall i0,
    Version.compareLoop num zero lt parts1 parts2 steps i0 = -1 <->
    exists i, (i0 <= i < i0 + steps)%nat /\
              lt (nth i parts1 zero) (nth i parts2 zero) = true /\
              forall j, (i0 <= j < i)%nat ->
                        lt (nth j parts1 zero) (nth j parts2 zero) = false /\
                        lt (nth j parts2 zero) (nth j parts1 zero) = false.
Proof.
  induction steps as [|steps IH]; intros i0; cbn [Version.compareLoop].
  - split; [discriminate|]. intros (i & Hi & _). lia.
  - destruct (lt (nth i0 parts1 zero) (nth i0 parts2 zero)) eqn:H12.
    + split; [intros _|done]. exists i0. split; [lia|]. split; [done|]. intros j Hj. lia.
    + destruct (lt (nth i0 parts2 zero) (nth i0 parts1 zero)) eqn:H21.
      * split; [discriminate|]. intros (i & Hi & Hlt & Hbefore).
        destruct (decide (i = i0)) as [->|Hne]; [congruence|].
        destruct (Hbefore i0 ltac:(lia)) as [_ E]. congruence.
      * rewrite IH. split.
        -- intros (i & Hi & Hlt & Hbefore). exists i. split; [lia|]. split; [done|].
           intros j Hj. destruct (decide (j = i0)) as [->|Hne]; [done|].
           apply Hbefore. lia.
        -- intros (i & Hi & Hlt & Hbefore).
           destruct (decide (i = i0)) as [->|Hne]; [congruence|].
           exists i. split; [lia|]. split; [done|]. intros j Hj. apply Hbefore. lia.
Qed.

(** X19: a version is older than another one (result -1) exactly when,
    at the first segment where the two differ in either direction, its
    number is the smaller one; missing segments count as 0. *)
Theorem compareVersions_older v1 v2 :
  Version.compareVersions num Number zero lt v1 v2 = -1 <->
  exists i,
    (i < Nat.max (length (Js.split "."%char v1)) (length (Js.split "."%char v2)))%nat /\
    lt (nth i (map Number (Js.split "."%char v1)) zero)
       (nth i (map Number (Js.split "."%char v2)) zero) = true /\
    forall j, (j < i)%nat ->
      lt (nth j (map Number (Js.split "."%char v1)) zero)
         (nth j (map Number (Js.split "."%char v2)) zero) = false /\
      lt (nth j (map Number (Js.split "."%char v2)) zero)
         (nth j (map Number (Js.split "."%char v1)) zero) = false.
Proof.
  unfold Version.compareVersions. rewrite compareLoop_older, !length_map.
  split; intros (i & Hi & Hlt & Hbefore); exists i; (split; [lia|]); (split; [done|]);
    intros j Hj; apply Hbefore; lia.
Qed.

Lemma compareLoop_ext parts1 parts1' parts2 steps :
  (forall i, nth i parts1 zero = nth i parts1' zero) ->
  forall i, Version.compareLoop num zero lt parts1 parts2 steps i
            = Version.compareLoop num zero lt parts1' parts2 steps i.
Proof.
  intros Hext. induction steps as [|steps IH]; intros i; [reflexivity|].
  cbn [Version.compareLoop]. by rewrite Hext, IH.
Qed.

Lemma compareLoop_past parts1 parts2 steps :
  lt zero zero = false ->
  forall i, (length parts1 <= i)%nat -> (length parts2 <= i)%nat ->
            Version.compareLoop num zero lt parts1 parts2 steps i = 0.
Proof.
  intros Hz. induction steps as [|steps IH]; intros i H1 H2; [reflexivity|].
  cbn [Version.compareLoop]. rewrite !nth_overflow, Hz by lia. apply IH; lia.
Qed.

Lemma compareLoop_more parts1 parts2 steps extra :
  lt zero zero = false ->
  forall i, (length parts1 <= i + steps)%nat -> (length parts2 <= i + steps)%nat ->
            Version.compareLoop num zero lt parts1 parts2 (steps + extra) i
            = Version.compareLoop num zero lt parts1 parts2 steps i.
Proof.
  intros Hz. induction steps as [|steps IH]; intros i H1 H2.
  - cbn [Nat.add Version.compareLoop]. apply compareLoop_past; [done|lia..].
  - cbn [Nat.add Version.compareLoop].
    destruct (lt (nth i parts1 zero) (nth i parts2 zero)); [done|].
    destruct (lt (nth i parts2 zero) (nth i parts1 zero)); [done|]. apply IH; lia.
Qed.

Lemma split_app sep a b :
  Js.split sep (a ++ String sep b) = (Js.split sep a ++ Js.split sep b)%list.
Proof.
  induction a as [|c a IH].
  - change ("" ++ String sep b) with (String sep b). cbn [Js.split].
    by rewrite Ascii.eqb_refl.
  - change (String c a ++ String sep b) with (String c (a ++ String sep b)).
    cbn [Js.split]. rewrite IH.
    destruct (Ascii.eqb c sep); [reflexivity|].
    destruct (GatewayCoverage.split_join sep a) as (_ & _ & Hne).
    by destruct (Js.split sep a).
Qed.

(** X20: a trailing ".0" segment does not change how a version compares:
    1.0 and 1.0.0 stand for the same version. *)
Theorem compareVersions_trailing_zero v1 v2 :
  Number "0" = zero ->
  lt zero zero = false ->
  Version.compareVersions num Number zero lt (v1 ++ ".0") v2
  = Version.compareVersions num Number zero lt v1 v2.
Proof.
  intros H0 Hz. unfold Version.compareVersions.
  change (v1 ++ ".0") with (v1 ++ String "." "0").
  rewrite split_app. change (Js.split "." "0") with ["0"].
  rewrite map_app. cbn [map]. rewrite H0.
  set (p1 := map Number (Js.split "." v1)). set (p2 := map Number (Js.split "." v2)).
  rewrite length_app. cbn [length].
  rewrite (compareLoop_ext (p1 ++ [zero]) p1 p2).
  2:{ intros i. destruct (Nat.lt_ge_cases i (length p1)) as [Hlt|Hge].
      - by rewrite app_nth1.
      - rewrite app_nth2, (nth_overflow p1) by lia.
        by destruct (i - length p1)%nat as [|[|?]]. }
  replace (Nat.max (length p1 + 1) (length p2))
    with (Nat.max (length p1) (length p2)
          + (Nat.max (length p1 + 1) (length p2) - Nat.max (length p1) (length p2)))%nat
    by lia.
  apply compareLoop_more; [done|lia..].
Qed.

End Versions.

Lemma number_lt_asym x y : Js.lt x y = true -> Js.lt y x = false.
Proof. destruct x, y; cbn; try done. lia. Qed.

Lemma compareVersions_antisym_witness :
  Version.compareVersions _ segment_number (Js.Finite 0) Js.lt "0.4.100" "0.4.28"
  = - Version.compareVersions _ segment_number (Js.Finite 0) Js.lt "0.4.28" "0.4.100".
Proof.
  apply (compareVersions_antisym _ segment_number (Js.Finite 0) Js.lt "0.4.28" "0.4.100").
  exact number_lt_asym.
Defined.

Lemma compareVersions_trailing_zero_witness :
  Version.compareVersions _ segment_number (Js.Finite 0) Js.lt ("1.0" ++ ".0") "1.0.1"
  = Version.compareVersions _ segment_number (Js.Finite 0) Js.lt "1.0" "1.0.1".
Proof.
  apply (compareVersions_trailing_zero _ segment_number (Js.Finite 0) Js.lt "1.0" "1.0.1");
    reflexivity.
Defined.

(** The numbers of some segments, and the comparison of versions that
    have them. *)
Example segment_number_samples :
  segment_number "100" = Js.Finite 100 /\ segment_number "" = Js.Finite 0 /\
  segment_number " 7 " = Js.Finite 7 /\ segment_number "-3" = Js.Finite (-3) /\
  segment_number "0-beta" = Js.NaN /\ segment_number "x" = Js.NaN /\
  Version.compareVersions _ segment_number (Js.Finite 0) Js.lt "0.4.28" "0.4.100" = -1 /\
  Version.compareVersions _ segment_number (Js.Finite 0) Js.lt "1.0.0-beta" "1.0.1" = 0.
Proof. vm_compute. repeat split; reflexivity. Qed.

(** Every fetch of a call carries the headers built from the configuration. *)
Lemma request_loop_headers (n : nat) :
  forall M B req world a sig lastError,
    Z.to_nat (M + 1 - a) = n ->
    Forall (fun ids => ids = identity_headers (fr_headers req))
      (fetch_identities (trace (request_loop M B req world a sig lastError))).
Proof.
  assert (Hab : forall (l : list Z) cause,
            fetch_identities ((fun i => EvAbort i cause) <$> l) = []).
  { intros l cause. induction l as [|i l IHl]; [reflexivity|exact IHl]. }
  assert (Hevs : forall ab a, fetch_identities (abort_events ab a) = []).
  { intros [[|ms]|] a; [apply Hab|reflexivity..]. }
  induction n as [|n IH]; intros M B req world a sig lastError Hn;
    rewrite request_loop_unfold.
  - rewrite (proj2 (Z.leb_gt a M)) by lia. constructor.
  - rewrite (proj2 (Z.leb_le a M)) by lia.
    cbn [trace emit emit_abort emits]. unfold fetch_identities at 1.
    cbn [omap list_omap]. constructor; [done|].
    rewrite omap_app. fold (fetch_identities (abort_events
      (it_aborted (attempt_body M B a sig (world a))) a)).
    rewrite Hevs, app_nil_l.
    destruct (it_step (attempt_body M B a sig (world a))) as [o|e d] eqn:Hs;
      [constructor|].
    cbn [trace emit emits omap list_omap]. rewrite omap_app.
    fold (fetch_identities (backoff_aborts
      (it_signal (attempt_body M B a sig (world a)))
      (caller_aborts_in_backoff (world a)) a)).
    assert (Hb : forall sg f, fetch_identities (backoff_aborts sg f a) = []).
    { intros sg f. unfold backoff_aborts. destruct (listener_runs sg f); [apply Hab|done]. }
    rewrite Hb, app_nil_l.
    apply IH. pose proof (continue_budget _ _ _ _ _ _ _ Hs). lia.
Qed.

(** X21: a configuration that [loadConfig] returns without header-based
    authentication carries a non-empty API key or JWT, so every fetch of
    every call made with it carries an identity header. *)
Theorem loaded_config_authenticates (is_url is_uuid : string -> bool)
    (env : gmap string string) (cfg : ConfigLoader.Config)
    path options world :
  ConfigLoader.loadConfig is_url is_uuid env = inl cfg ->
  ConfigLoader.allowHeaderAuth cfg = false ->
  is_url (ConfigLoader.apiUrl cfg) = true /\
  (Js.truthy_opt (ConfigLoader.apiKey cfg) = true \/
   Js.truthy_opt (ConfigLoader.jwt cfg) = true) /\
  Forall (fun ids => ids <> [])
    (fetch_identities (trace (request (ConfigLoader.to_http cfg) path options world))).
Proof.
  unfold ConfigLoader.loadConfig. intros Hload Hallow.
  destruct (ConfigLoader.issues is_url is_uuid env) eqn:Hissues; [|discriminate].
  match type of Hload with
  | (if ?c then _ else _) = _ => destruct c eqn:Hc; [discriminate|]
  end.
  injection Hload as <-. cbn [ConfigLoader.allowHeaderAuth] in Hallow.
  cbn [ConfigLoader.apiUrl ConfigLoader.apiKey ConfigLoader.jwt] in *.
  rewrite Hallow, andb_true_r in Hc.
  assert (Hurl : is_url (default "" (env !! "CONTEXTSTREAM_API_URL")) = true).
  { unfold ConfigLoader.issues, ConfigLoader.url_ok in Hissues.
    destruct (env !! "CONTEXTSTREAM_API_URL") as [u|]; [|discriminate].
    cbn. by destruct (is_url u). }
  assert (Hcred : Js.truthy_opt (env !! "CONTEXTSTREAM_API_KEY") = true \/
                  Js.truthy_opt (env !! "CONTEXTSTREAM_JWT") = true).
  { destruct (Js.truthy_opt (env !! "CONTEXTSTREAM_API_KEY")); [by left|].
    destruct (Js.truthy_opt (env !! "CONTEXTSTREAM_JWT")); [by right|discriminate]. }
  split; [done|]. split; [done|].
  unfold request.
  eapply Forall_impl; [by eapply request_loop_headers|].
  intros ids ->. cbn [build_fetch fr_headers].
  unfold build_headers, identity_headers, ConfigLoader.to_http.
  cbn [apiKey jwt userAgent ConfigLoader.apiKey ConfigLoader.jwt].
  destruct Hcred as [-> | ->].
  - destruct (Js.truthy_opt (env !! "CONTEXTSTREAM_JWT")); discriminate.
  - destruct (Js.truthy_opt (env !! "CONTEXTSTREAM_API_KEY")); discriminate.
Qed.

Lemma loaded_config_authenticates_witness :
  Forall (fun ids => ids <> [])
    (fetch_identities (trace (request
       (ConfigLoader.to_http
          {| ConfigLoader.apiUrl := "https://api.example.com";
             ConfigLoader.apiKey := Some "k"; ConfigLoader.jwt := None;
             ConfigLoader.defaultWorkspaceId := None;
             ConfigLoader.defaultProjectId := None;
             ConfigLoader.userAgent := "contextstream-mcp/0.1.0";
             ConfigLoader.allowHeaderAuth := false |})
       "/x" plain_options (always (text_response 200 None))))).
Proof.
  apply (loaded_config_authenticates (Js.startsWith "http") (fun _ => true) key_env);
    reflexivity.
Defined.

Lemma dropTrailingSlashes_clean s t : Credentials.dropTrailingSlashes s <> t ++ "/".
Proof.
  revert t. induction s as [|c s IH]; intros t; cbn [Credentials.dropTrailingSlashes].
  - by destruct t.
  - destruct (Credentials.dropTrailingSlashes s) as [|a u] eqn:E.
    + destruct (Ascii.eqb_spec c "/"%char) as [->|Hne]; [by destruct t|].
      destruct t as [|c' t'].
      * change ("" ++ "/") with (String "/" ""). congruence.
      * change (String c' t' ++ "/") with (String c' (t' ++ "/")).
        intros [= _ Ht]. by destruct t'.
    + destruct t as [|c' t']; [cbn; discriminate|].
      change (String c' t' ++ "/") with (String c' (t' ++ "/")).
      intros [= _ Hu]. by apply (IH t').
Qed.

(** X22: a normalized API URL never ends with a slash, so the dispatcher
    appends the API path to it as it is. *)
Theorem normalized_url_joins config input path :
  (forall t, Credentials.normalizeApiUrl input <> t ++ "/") /\
  build_url (with_apiUrl (Credentials.normalizeApiUrl input) config) path
  = Credentials.normalizeApiUrl input
    ++ (if Js.startsWith "/api/" path then path else "/api/v1" ++ path).
Proof.
  assert (H : forall t, Credentials.normalizeApiUrl input <> t ++ "/")
    by (intros t; apply dropTrailingSlashes_clean).
  split; [exact H|].
  unfold build_url, with_apiUrl. cbn [apiUrl].
  by rewrite DispatcherCoverage.dropTrailingSlash_id.
Qed.

(** The matchers of one hook type after the loop over the new hooks. *)
Lemma merge_lookup (existing new : gmap string (list Hooks.ClaudeHookMatcher)) t :
  map_fold Hooks.mergeHookType existing new !! t
  = match new !! t with
    | Some ms =>
        Some (List.filter (fun m => negb (Hooks.isContextStream m))
                (default [] (existing !! t)) ++ ms)%list
    | None => existing !! t
    end.
Proof.
  revert t.
  apply (map_fold_weak_ind
           (fun acc (m : gmap string (list Hooks.ClaudeHookMatcher)) =>
              forall t, acc !! t
                = match m !! t with
                  | Some ms =>
                      Some (List.filter (fun m => negb (Hooks.isContextStream m))
                              (default [] (existing !! t)) ++ ms)%list
                  | None => existing !! t
                  end)).
  - intros t. by rewrite lookup_empty.
  - intros i ms m acc Hi IH t. unfold Hooks.mergeHookType.
    destruct (decide (i = t)) as [->|Hne].
    + rewrite !lookup_insert_eq. by rewrite IH, Hi.
    + rewrite !lookup_insert_ne by done. apply IH.
Qed.

(** X23: merging new hooks into settings drops no hook of another tool:
    every matcher of the existing settings without a ContextStream
    command is still there afterwards, under its hook type, and the other
    keys of the settings are unchanged. *)
Theorem merge_keeps_foreign_hooks {Other} (settings : Hooks.Settings Other)
    (newHooks : option (gmap string (list Hooks.ClaudeHookMatcher)))
    (existing : gmap string (list Hooks.ClaudeHookMatcher))
    (t : string) (ms : list Hooks.ClaudeHookMatcher) (m : Hooks.ClaudeHookMatcher) :
  Hooks.s_hooks settings = Some existing ->
  existing !! t = Some ms ->
  In m ms ->
  Hooks.isContextStream m = false ->
  Hooks.s_other (Hooks.mergeHooksIntoSettings settings newHooks) = Hooks.s_other settings /\
  exists merged ms',
    Hooks.s_hooks (Hooks.mergeHooksIntoSettings settings newHooks) = Some merged /\
    merged !! t = Some ms' /\ In m ms'.
Proof.
  intros Hs Ht Hin Hm. split; [reflexivity|].
  unfold Hooks.mergeHooksIntoSettings. rewrite Hs. cbn [from_option id Hooks.s_hooks].
  exists (map_fold Hooks.mergeHookType existing (default ∅ newHooks)).
  rewrite (merge_lookup existing (default ∅ newHooks) t), Ht. cbn [from_option id].
  destruct (default ∅ newHooks !! t) as [new_ms|].
  - eexists. split; [reflexivity|]. split; [reflexivity|].
    apply in_or_app. left. apply filter_In. by rewrite Hm.
  - eexists. split; [reflexivity|]. by split.
Qed.

Lemma filter_idem {A} (f : A -> bool) l :
  List.filter f (List.filter f l) = List.filter f l.
Proof.
  induction l as [|x l IH]; [reflexivity|]. cbn [List.filter].
  destruct (f x) eqn:E; [|exact IH]. cbn [List.filter]. by rewrite E, IH.
Qed.

Lemma filter_none (ms : list Hooks.ClaudeHookMatcher) :
  Forall (fun m => Hooks.isContextStream m = true) ms ->
  List.filter (fun m => negb (Hooks.isContextStream m)) ms = [].
Proof.
  induction 1 as [|m ms Hm _ IH]; [reflexivity|]. cbn [List.filter]. by rewrite Hm.
Qed.

(** Merging hooks that are all ContextStream's a second time changes
    nothing: the hooks merged before are replaced by themselves. *)
Lemma merge_tagged_idem {Other} (settings : Hooks.Settings Other)
    (new : gmap string (list Hooks.ClaudeHookMatcher)) :
  all_contextstream new ->
  Hooks.mergeHooksIntoSettings (Hooks.mergeHooksIntoSettings settings (Some new)) (Some new)
  = Hooks.mergeHooksIntoSettings settings (Some new).
Proof.
  intros Hall. unfold Hooks.mergeHooksIntoSettings.
  cbn [from_option id Hooks.s_hooks Hooks.s_other]. f_equal. f_equal.
  apply map_eq. intros t. rewrite !merge_lookup.
  destruct (new !! t) as [ms|] eqn:Ht; [|reflexivity].
  cbn [from_option id]. f_equal.
  by rewrite List.filter_app, filter_idem, (filter_none ms (Hall t ms Ht)), app_nil_r.
Qed.

Lemma startsWith_app p s t : Js.startsWith p s = true -> Js.startsWith p (s ++ t) = true.
Proof.
  revert s. induction p as [|a p IH]; intros s; [done|].
  destruct s as [|b s]; [discriminate|].
  change (String b s ++ t) with (String b (s ++ t)). cbn [Js.startsWith].
  destruct (Ascii.eqb a b); [apply IH|discriminate].
Qed.

Lemma includes_app_l p s t : Js.includes p s = true -> Js.includes p (s ++ t) = true.
Proof.
  induction s as [|b s IH].
  - cbn [Js.includes]. rewrite orb_false_r. destruct p; [|discriminate]. by destruct t.
  - change (String b s ++ t) with (String b (s ++ t)). cbn [Js.includes].
    intros [H|H]%orb_prop.
    + apply orb_true_intro. left. exact (startsWith_app p (String b s) t H).
    + rewrite (IH H). apply orb_true_r.
Qed.

Lemma includes_app_r p s t : Js.includes p t = true -> Js.includes p (s ++ t) = true.
Proof.
  intros H. induction s as [|b s IH]; [exact H|].
  change (String b s ++ t) with (String b (s ++ t)). cbn [Js.includes].
  rewrite IH. apply orb_true_r.
Qed.

(** The hooks that [buildHooksConfig] builds are ContextStream's, when
    joining a directory and a file name keeps the file name. *)
Lemma buildHooksConfig_tagged (path_join : string -> string -> string) hooksDir b :
  (forall d f, Js.includes "contextstream" f = true ->
               Js.includes "contextstream" (path_join d f) = true) ->
  all_contextstream (Hooks.buildHooksConfig path_join hooksDir b).
Proof.
  intros Hjoin.
  assert (Hhook : forall script seconds,
             Js.includes "contextstream" script = true ->
             Hooks.isContextStream
               {| Hooks.matcher := "*";
                  Hooks.hooks := Some [Hooks.commandHook path_join hooksDir script seconds] |}
             = true).
  { intros script seconds Hs. unfold Hooks.isContextStream, Hooks.commandHook.
    cbn [Hooks.hooks existsb Hooks.command]. rewrite orb_false_r.
    apply includes_app_r, includes_app_r, includes_app_l, Hjoin, Hs. }
  assert (Hpre : Hooks.isContextStream
             {| Hooks.matcher := "Glob|Grep|Search|Task|EnterPlanMode";
                Hooks.hooks := Some [Hooks.commandHook path_join hooksDir
                                       "contextstream-redirect.py" 5] |} = true).
  { unfold Hooks.isContextStream, Hooks.commandHook.
    cbn [Hooks.hooks existsb Hooks.command]. rewrite orb_false_r.
    by apply includes_app_r, includes_app_r, includes_app_l, Hjoin. }
  intros t ms. unfold Hooks.buildHooksConfig.
  assert (Hbase : forall ms',
             ({[ "PreToolUse" :=
                   [ {| Hooks.matcher := "Glob|Grep|Search|Task|EnterPlanMode";
                        Hooks.hooks := Some [Hooks.commandHook path_join hooksDir
                                               "contextstream-redirect.py" 5] |} ];
                 "UserPromptSubmit" :=
                   [ {| Hooks.matcher := "*";
                        Hooks.hooks := Some [Hooks.commandHook path_join hooksDir
                                               "contextstream-reminder.py" 5] |} ] ]}
              : gmap string (list Hooks.ClaudeHookMatcher)) !! t = Some ms' ->
             Forall (fun m => Hooks.isContextStream m = true) ms').
  { intros ms' [[_ <-]|[_ [_ <-]%lookup_singleton_Some]]%lookup_insert_Some.
    - by repeat constructor.
    - repeat constructor. by apply Hhook. }
  destruct b; [|apply Hbase].
  intros [[_ <-]|[_ H]]%lookup_insert_Some; [|by apply Hbase].
  repeat constructor. by apply Hhook.
Qed.

(** X24: installing the hooks built by [buildHooksConfig] into settings
    that already hold them gives the same settings: a second installation
    adds no duplicate, and what the first one left in place stays. *)
Theorem reinstall_is_idempotent {Other} (path_join : string -> string -> string)
    (hooksDir : string) (includePreCompact : bool) (settings : Hooks.Settings Other) :
  (forall d f, Js.includes "contextstream" f = true ->
               Js.includes "contextstream" (path_join d f) = true) ->
  Hooks.mergeHooksIntoSettings
    (Hooks.mergeHooksIntoSettings settings
       (Some (Hooks.buildHooksConfig path_join hooksDir includePreCompact)))
    (Some (Hooks.buildHooksConfig path_join hooksDir includePreCompact))
  = Hooks.mergeHooksIntoSettings settings
      (Some (Hooks.buildHooksConfig path_join hooksDir includePreCompact)).
Proof.
  intros Hjoin. apply merge_tagged_idem. by apply buildHooksConfig_tagged.
Qed.

Lemma slash_join_keeps d f :
  Js.includes "contextstream" f = true ->
  Js.includes "contextstream" (slash_join d f) = true.
Proof. intros H. unfold slash_join. by apply includes_app_r, includes_app_r. Qed.

Lemma merge_keeps_foreign_hooks_witness :
  exists merged ms',
    Hooks.s_hooks (Hooks.mergeHooksIntoSettings foreign_settings
       (Some (Hooks.buildHooksConfig slash_join "/home/u/.claude/hooks" false)))
      = Some merged /\
    merged !! "PreToolUse" = Some ms' /\ In foreign_matcher ms'.
Proof.
  apply (merge_keeps_foreign_hooks foreign_settings _
           {[ "PreToolUse" := [foreign_matcher] ]} "PreToolUse" [foreign_matcher]
           foreign_matcher); try reflexivity.
  by left.
Defined.

Lemma reinstall_is_idempotent_witness :
  Hooks.mergeHooksIntoSettings
    (Hooks.mergeHooksIntoSettings foreign_settings
       (Some (Hooks.buildHooksConfig slash_join "/home/u/.claude/hooks" false)))
    (Some (Hooks.buildHooksConfig slash_join "/home/u/.claude/hooks" false))
  = Hooks.mergeHooksIntoSettings foreign_settings
      (Some (Hooks.buildHooksConfig slash_join "/home/u/.claude/hooks" false)).
Proof.
  apply (reinstall_is_idempotent slash_join "/home/u/.claude/hooks" false foreign_settings).
  exact slash_join_keeps.
Defined.

End SupportCoverage.
